(** * umm_poison: poisoned allocations over the umm block heap

    A shallow embedding of [src/umm_poison.c] (the [UMM_POISON_CHECK]
    build): the poison codec ([poison_size], [put_poison], [check_poison],
    [check_poison_block], [get_poisoned], [get_unpoisoned]), the four
    allocation entry points and the heap-wide scan [umm_poison_check].

    Addresses and [size_t] values are [Z]; memory is a byte map from
    addresses to [Z] values in [0, 256).  The build-time configuration
    (guard sizes, width and signedness of [UMM_POISONED_BLOCK_LEN_TYPE],
    width of [size_t]) is a record, and the underlying block allocator
    ([umm_init], [umm_malloc], [umm_realloc], [umm_free]) is an abstract
    collaborator passed as a record of state transformers. *)

From Stdlib Require Import ZArith List String Bool Lia.
Import ListNotations.
Open Scope Z_scope.

(** ** Build-time configuration *)

Record umm_config := mkConfig {
  UMM_POISON_SIZE_BEFORE : Z;
  UMM_POISON_SIZE_AFTER : Z;
  (** [sizeof(UMM_POISONED_BLOCK_LEN_TYPE)] in bytes *)
  LEN_TYPE_SIZE : Z;
  (** whether [UMM_POISONED_BLOCK_LEN_TYPE] is a signed type (e.g. [short]) *)
  LEN_TYPE_SIGNED : bool;
  (** bit width of [size_t] *)
  SIZE_T_BITS : Z
}.

(** Sanity of a configuration: non-negative guards, a length record of at
    least one byte, a [size_t] wider than the length record. *)
Definition cfg_ok (cfg : umm_config) : bool :=
  (0 <=? UMM_POISON_SIZE_BEFORE cfg) && (0 <=? UMM_POISON_SIZE_AFTER cfg) &&
  (1 <=? LEN_TYPE_SIZE cfg) && (8 * LEN_TYPE_SIZE cfg <=? SIZE_T_BITS cfg).

Definition POISON_BYTE : Z := 0xa5.
Definition NULL : Z := 0.

(** ** Heap state *)

(** Log records emitted through [DBGLOG_ERROR]. *)
Inductive event :=
| NoPoison (side : string) (addr : Z) (actual : list Z)
    (* "No poison %s block at: 0x%lx, actual data:" followed by [dump_mem] *)
| FreeBlockCheck (addr : Z)
    (* "check_poison_block is called for free block 0x%lx" *).

(** The heap. The link fields of the block headers are kept in [nblock],
    apart from the bytes [mem] of the block bodies, although in C they share
    one memory: reads of [mem] are meaningful only inside block bodies, and
    the theorems about heaps keep every guard and length-record access there. *)
Set Primitive Projections.
Record heap_state := mkHeap {
  umm_heap : Z;            (* address of [umm_heap[0]]; [NULL] before [umm_init] *)
  mem : Z -> Z;            (* byte contents of the block bodies *)
  nblock : Z -> Z;         (* [UMM_NBLOCK(c)], the 16-bit [header.used.next] of block [c] *)
  dbglog : list event      (* debug output so far *)
}.
Unset Primitive Projections.

(** Modelled from the spec: the block layout and link-field encoding of the
    underlying allocator ([umm_block], [UMM_BLOCK], [UMM_FREELIST_MASK],
    [UMM_BLOCKNO_MASK], defined in umm_malloc.c, not part of this file).
    A block is a link header ({next, prev} of two bytes each) followed by a
    body; the high bit of the 16-bit next field marks a free block and the
    other 15 bits hold the index of the next block. *)
Definition umm_block_size : Z := 8.
Definition umm_header_size : Z := 4.
Definition UMM_FREELIST_MASK : Z := 0x8000.
Definition UMM_BLOCKNO_MASK : Z := 0x7FFF.

(** [&UMM_BLOCK(c)] and [UMM_BLOCK(c).body.data]. *)
Definition block_addr (s : heap_state) (c : Z) : Z := umm_heap s + c * umm_block_size.
Definition data_addr (s : heap_state) (c : Z) : Z := block_addr s c + umm_header_size.

Definition next_blk (s : heap_state) (c : Z) : Z := Z.land (nblock s c) UMM_BLOCKNO_MASK.
Definition is_free (s : heap_state) (c : Z) : bool :=
  negb (Z.land (nblock s c) UMM_FREELIST_MASK =? 0).

Definition add_log (s : heap_state) (ev : event) : heap_state :=
  mkHeap (umm_heap s) (mem s) (nblock s) (dbglog s ++ [ev]).
Definition set_mem (s : heap_state) (m : Z -> Z) : heap_state :=
  mkHeap (umm_heap s) m (nblock s) (dbglog s).

(** ** A state monad with a fatal stop *)

(** [Fatal] is the process stop raised by [APP_ERROR_CHECK_BOOL(false)]. *)
Inductive outcome (A : Type) :=
| Ret (a : A) (s : heap_state)
| Fatal (s : heap_state).
Arguments Ret {A}.
Arguments Fatal {A}.

Definition M (A : Type) : Type := heap_state -> outcome A.

Definition ret {A} (a : A) : M A := fun s => Ret a s.
Definition bind {A B} (m : M A) (f : A -> M B) : M B :=
  fun s => match m s with Ret a s' => f a s' | Fatal s' => Fatal s' end.
Notation "x <- m ;; k" := (bind m (fun x => k))
  (at level 61, m at next level, right associativity).
Notation "m ;; k" := (bind m (fun _ => k)) (at level 61, right associativity).

Definition get : M heap_state := fun s => Ret s s.
Definition update_mem (f : (Z -> Z) -> (Z -> Z)) : M unit :=
  fun s => Ret tt (set_mem s (f (mem s))).
Definition dbglog_error (ev : event) : M unit := fun s => Ret tt (add_log s ev).

(** Modelled from the spec: [APP_ERROR_CHECK_BOOL] (app_error.h, not part of
    the sources) is a fatal assertion: a false argument stops the process. *)
Definition APP_ERROR_CHECK_BOOL (b : bool) : M unit :=
  fun s => if b then Ret tt s else Fatal s.

(** ** The underlying allocator, an external collaborator *)

Record allocator := mkAllocator {
  umm_init : heap_state -> heap_state;
  umm_malloc : Z -> heap_state -> heap_state * Z;
  umm_realloc : Z -> Z -> heap_state -> heap_state * Z;
  umm_free : Z -> heap_state -> heap_state
}.

(** ** Bytes and [size_t] arithmetic *)

(** [memset(ptr, v, n)] *)
Definition memset (m : Z -> Z) (ptr n v : Z) : Z -> Z :=
  fun a => if (ptr <=? a) && (a <? ptr + n) then v else m a.

(** [n] bytes read little-endian from [p]. *)
Fixpoint le_bytes (m : Z -> Z) (p : Z) (n : nat) : Z :=
  match n with
  | O => 0
  | S n' => m p + 256 * le_bytes m (p + 1) n'
  end.

(** Bytes from [ptr] for [len] bytes, as printed by [dump_mem]. *)
Definition dump_mem (m : Z -> Z) (ptr len : Z) : list Z :=
  map (fun i => m (ptr + Z.of_nat i)) (seq 0 (Z.to_nat len)).

Section Poison.

Variable cfg : umm_config.
Variable al : allocator.

Local Abbreviation BEFORE := (UMM_POISON_SIZE_BEFORE cfg).
Local Abbreviation AFTER := (UMM_POISON_SIZE_AFTER cfg).
Local Abbreviation LEN := (LEN_TYPE_SIZE cfg).

Definition size_max_plus_one : Z := 2 ^ SIZE_T_BITS cfg.

(** [a + b] and [a * b] on [size_t]. *)
Definition size_add (a b : Z) : Z := (a + b) mod size_max_plus_one.
Definition size_mul (a b : Z) : Z := (a * b) mod size_max_plus_one.

(** [*((UMM_POISONED_BLOCK_LEN_TYPE * )p)]: the length record read back. *)
Definition read_len (m : Z -> Z) (p : Z) : Z :=
  let u := le_bytes m p (Z.to_nat LEN) in
  if LEN_TYPE_SIGNED cfg && (2 ^ (8 * LEN - 1) <=? u) then u - 2 ^ (8 * LEN) else u.

(** [*(UMM_POISONED_BLOCK_LEN_TYPE * )p = (UMM_POISONED_BLOCK_LEN_TYPE)v]:
    the low [LEN] bytes of [v], little-endian. *)
Definition store_len (m : Z -> Z) (p v : Z) : Z -> Z :=
  fun a => if (p <=? a) && (a <? p + LEN)
           then Z.land (Z.shiftr v (8 * (a - p))) 255 else m a.

(** Largest length value that reads back unchanged, plus one. *)
Definition len_limit : Z :=
  if LEN_TYPE_SIGNED cfg then 2 ^ (8 * LEN - 1) else 2 ^ (8 * LEN).

(** *** The poison codec *)

Definition poison_size (s : Z) : Z :=
  if negb (s =? 0) then BEFORE + LEN + AFTER else 0.

Definition put_poison (ptr size : Z) : M unit :=
  update_mem (fun m => memset m ptr size POISON_BYTE).

(** The [for] loop of [check_poison]: [true] when no byte differs. *)
Fixpoint scan_poison (m : Z -> Z) (ptr i : Z) (n : nat) : bool :=
  match n with
  | O => true
  | S n' => if negb (m (ptr + i) =? POISON_BYTE) then false
            else scan_poison m ptr (i + 1) n'
  end.

Definition check_poison (ptr size : Z) (side : string) : M Z :=
  s <- get ;;
  let ok := scan_poison (mem s) ptr 0 (Z.to_nat size) in
  if ok then ret 1
  else
    dbglog_error (NoPoison side ptr (dump_mem (mem s) ptr size)) ;;
    APP_ERROR_CHECK_BOOL false ;;
    ret 0.

(** [check_poison_block(&UMM_BLOCK(c))] *)
Definition check_poison_block (c : Z) : M Z :=
  s <- get ;;
  if negb (Z.land (nblock s c) UMM_FREELIST_MASK =? 0) then
    dbglog_error (FreeBlockCheck (block_addr s c)) ;;
    ret 1
  else
    let pc := data_addr s c in
    ok1 <- check_poison (pc + LEN) BEFORE "before" ;;
    if ok1 =? 0 then ret 0 else
    s' <- get ;;
    let pc_cur := pc + read_len (mem s') pc - AFTER in
    ok2 <- check_poison pc_cur AFTER "after" ;;
    if ok2 =? 0 then ret 0 else ret 1.

Definition get_poisoned (ptr size_w_poison : Z) : M Z :=
  if negb (size_w_poison =? 0) && negb (ptr =? NULL) then
    put_poison (ptr + LEN) BEFORE ;;
    put_poison (ptr + size_w_poison - AFTER) AFTER ;;
    update_mem (fun m => store_len m ptr size_w_poison) ;;
    ret (ptr + LEN + BEFORE)
  else ret ptr.

Definition get_unpoisoned (ptr : Z) : M Z :=
  if negb (ptr =? NULL) then
    let ptr := ptr - (LEN + BEFORE) in
    s <- get ;;
    (* [(ptrdiff_t) / sizeof(umm_block)] in [size_t], stored in an unsigned short *)
    let c := ((ptr - umm_heap s) mod size_max_plus_one / umm_block_size) mod 2 ^ 16 in
    check_poison_block c ;;
    ret ptr
  else ret ptr.

(** *** Calls into the underlying allocator *)

Definition call_init : M unit := fun s => Ret tt (umm_init al s).
Definition call_malloc (size : Z) : M Z :=
  fun s => let (s', r) := umm_malloc al size s in Ret r s'.
Definition call_realloc (ptr size : Z) : M Z :=
  fun s => let (s', r) := umm_realloc al ptr size s in Ret r s'.
Definition call_free (ptr : Z) : M unit := fun s => Ret tt (umm_free al ptr s).

(** *** The entry points *)

Definition umm_poison_malloc (size : Z) : M Z :=
  let size := size_add size (poison_size size) in
  r <- call_malloc size ;;
  get_poisoned r size.

Definition umm_poison_calloc (num item_size : Z) : M Z :=
  let size := size_mul item_size num in
  let size := size_add size (poison_size size) in
  r <- call_malloc size ;;
  (if negb (NULL =? r) then update_mem (fun m => memset m r size 0) else ret tt) ;;
  get_poisoned r size.

Definition umm_poison_realloc (ptr size : Z) : M Z :=
  ptr <- get_unpoisoned ptr ;;
  let size := size_add size (poison_size size) in
  r <- call_realloc ptr size ;;
  get_poisoned r size.

Definition umm_poison_free (ptr : Z) : M unit :=
  ptr <- get_unpoisoned ptr ;;
  call_free ptr.

(** The [while] loop of [umm_poison_check], run for at most [fuel]
    iterations; [None] when the fuel runs out before the loop ends. *)
Fixpoint check_loop (fuel : nat) (cur ok : Z) : M (option Z) :=
  match fuel with
  | O => ret None
  | S fuel' =>
    s <- get ;;
    if Z.land (nblock s cur) UMM_BLOCKNO_MASK =? 0 then ret (Some ok)
    else if Z.land (nblock s cur) UMM_FREELIST_MASK =? 0 then
      ok' <- check_poison_block cur ;;
      if ok' =? 0 then ret (Some ok')
      else s' <- get ;; check_loop fuel' (Z.land (nblock s' cur) UMM_BLOCKNO_MASK) ok'
    else check_loop fuel' (Z.land (nblock s cur) UMM_BLOCKNO_MASK) ok
  end.

Definition umm_poison_check (fuel : nat) : M (option Z) :=
  s <- get ;;
  (if umm_heap s =? NULL then call_init else ret tt) ;;
  s' <- get ;;
  check_loop fuel (Z.land (nblock s' 0) UMM_BLOCKNO_MASK) 1.

End Poison.

(** ** Heap invariants and the scan *)

Section HeapDefs.

Variable cfg : umm_config.
Local Abbreviation BEFORE := (UMM_POISON_SIZE_BEFORE cfg).
Local Abbreviation AFTER := (UMM_POISON_SIZE_AFTER cfg).
Local Abbreviation LEN := (LEN_TYPE_SIZE cfg).

(** The poisoned allocation held by used block [c] is intact: its length
    record covers at least the poison and stays inside the block, and both
    guard regions hold [POISON_BYTE]. *)
Definition alloc_intact (s : heap_state) (c : Z) : bool :=
  let p := data_addr s c in
  let v := read_len cfg (mem s) p in
  (BEFORE + LEN + AFTER <=? v) && (p + v <=? block_addr s (next_blk s c)) &&
  scan_poison (mem s) (p + LEN) 0 (Z.to_nat BEFORE) &&
  scan_poison (mem s) (p + v - AFTER) 0 (Z.to_nat AFTER).

(** [chain_b nb cur l]: following the masked next indices from [cur], the
    blocks whose next index is non-zero are exactly [l], in order, and the
    walk then reaches a block whose next index is zero. *)
Fixpoint chain_b (nb : Z -> Z) (cur : Z) (l : list Z) : bool :=
  match l with
  | [] => Z.land (nb cur) UMM_BLOCKNO_MASK =? 0
  | c :: l' => (c =? cur) && negb (Z.land (nb cur) UMM_BLOCKNO_MASK =? 0) &&
               chain_b nb (Z.land (nb cur) UMM_BLOCKNO_MASK) l'
  end.

(** Blocks of the chain are laid out in increasing address order. *)
Definition ascending (nb : Z -> Z) (l : list Z) : bool :=
  forallb (fun c => (0 <=? c) && (c <? Z.land (nb c) UMM_BLOCKNO_MASK)) l.

(** A heap of live poisoned allocations: initialised, its chain from block 0
    is [l] and ascending, and every used block of [l] holds an intact
    poisoned allocation. *)
Definition live_heap (s : heap_state) (l : list Z) : bool :=
  (0 <? umm_heap s) && chain_b (nblock s) (next_blk s 0) l && ascending (nblock s) l &&
  forallb (fun c => is_free s c || alloc_intact s c) l.

Definition used_blocks (s : heap_state) (l : list Z) : list Z :=
  filter (fun c => negb (is_free s c)) l.

(** Verification of a list of blocks in order, stopping at the first
    failure. *)
Fixpoint verify_blocks (l : list Z) : M Z :=
  match l with
  | [] => ret 1
  | c :: l' => ok <- check_poison_block cfg c ;; if ok =? 0 then ret 0 else verify_blocks l'
  end.

(** The state right after the underlying allocator granted block [c] for a
    request of [t] bytes at [p]: the heap is initialised, its chain [l] is
    ascending, [c] is a used block of the chain whose body starts at [p] and
    has room for [t] bytes, and every other used block of the chain holds an
    intact poisoned allocation. *)
Definition fresh_block (s : heap_state) (l : list Z) (c p t : Z) : bool :=
  (0 <? umm_heap s) && chain_b (nblock s) (next_blk s 0) l && ascending (nblock s) l &&
  existsb (Z.eqb c) l && negb (is_free s c) && (p =? data_addr s c) &&
  (p + t <=? block_addr s (next_blk s c)) &&
  forallb (fun d => is_free s d || (d =? c) || alloc_intact s d) l.

(** The two guard regions of a poisoned allocation. *)
Inductive guard_side := GuardBefore | GuardAfter.

Definition side_name (g : guard_side) : string :=
  match g with GuardBefore => "before" | GuardAfter => "after" end.

(** First byte of a guard region of block [c], as [check_poison_block]
    computes it. *)
Definition guard_start (s : heap_state) (c : Z) (g : guard_side) : Z :=
  let p := data_addr s c in
  match g with
  | GuardBefore => p + LEN
  | GuardAfter => p + read_len cfg (mem s) p - AFTER
  end.

Definition guard_len (g : guard_side) : Z :=
  match g with GuardBefore => BEFORE | GuardAfter => AFTER end.

(** Memory [m] with the byte at [x] overwritten by [b]. *)
Definition poke (m : Z -> Z) (x b : Z) : Z -> Z := fun a => if a =? x then b else m a.

End HeapDefs.

(** ** A concrete configuration and heap

    The default umm configuration (4-byte guards, a [short] length record)
    on a 32-bit target, and a small allocator used to run the code. *)

Definition cfg_std : umm_config := mkConfig 4 4 2 true 32.

Definition heap0 : heap_state :=
  mkHeap 0x20000000 (fun _ => 0)
    (fun c => if c =? 0 then 1 else if c =? 1 then Z.lor 6000 UMM_FREELIST_MASK else 0) [].

(** Grants every non-zero request with the body of block 1 (which spans
    blocks 1 to 5999), marking it used. *)
Definition demo_alloc : allocator :=
  mkAllocator (fun s => s)
    (fun n s => if n =? 0 then (s, NULL)
                else (mkHeap (umm_heap s) (mem s)
                        (fun c => if c =? 1 then 6000 else nblock s c) (dbglog s),
                      data_addr s 1))
    (fun _ _ s => (s, NULL))
    (fun _ s => s).

(** Returns the body of block 1 for every request, size 0 included. *)
Definition zero_alloc : allocator :=
  mkAllocator (fun s => s) (fun _ s => (s, data_addr s 1)) (fun _ _ s => (s, NULL)) (fun _ s => s).

(** Refuses every request. *)
Definition null_alloc : allocator :=
  mkAllocator (fun s => s) (fun _ s => (s, NULL)) (fun _ _ s => (s, NULL)) (fun _ s => s).

Definition result_of {A} (o : outcome A) : option A :=
  match o with Ret a _ => Some a | Fatal _ => None end.
Definition state_of {A} (o : outcome A) : heap_state :=
  match o with Ret _ s => s | Fatal s => s end.

(** A heap whose block 6000 is used but holds no intact poisoned
    allocation (its guard bytes were overwritten with zeros). *)
Definition heap_bad : heap_state :=
  mkHeap 0x20000000 (fun _ => 0)
    (fun c => if c =? 0 then 1 else if c =? 1 then Z.lor 6000 UMM_FREELIST_MASK
              else if c =? 6000 then 6001 else 0) [].

(** The heap after [umm_poison_malloc(10)]. *)
Definition heap1 : heap_state := state_of (umm_poison_malloc cfg_std demo_alloc 10 heap0).

(** ** Byte-level lemmas *)

Section Bytes.

Variable cfg : umm_config.
Local Abbreviation LEN := (LEN_TYPE_SIZE cfg).

Lemma scan_poison_true (m : Z -> Z) ptr i n :
  scan_poison m ptr i n = true <->
  (forall k, i <= k < i + Z.of_nat n -> m (ptr + k) = POISON_BYTE).
Proof.
  revert i; induction n as [|n IH]; intro i; simpl.
  - split; [intros _ k Hk; lia | auto].
  - destruct (Z.eqb_spec (m (ptr + i)) POISON_BYTE) as [E|E]; simpl.
    + rewrite IH; split.
      * intros H k Hk. destruct (Z.eq_dec k i) as [->|]; [exact E|]. apply H; lia.
      * intros H k Hk. apply H; lia.
    + split; [discriminate|]. intros H. exfalso. apply E, H. lia.
Qed.

Lemma scan_poison_ext (m m' : Z -> Z) ptr i n :
  (forall a, ptr + i <= a < ptr + i + Z.of_nat n -> m a = m' a) ->
  scan_poison m ptr i n = scan_poison m' ptr i n.
Proof.
  revert i; induction n as [|n IH]; intros i H; simpl; [reflexivity|].
  rewrite (H (ptr + i)) by lia.
  destruct (m' (ptr + i) =? POISON_BYTE); simpl; [|reflexivity].
  apply IH. intros a Ha. apply H. lia.
Qed.

Lemma le_bytes_ext (m m' : Z -> Z) p n :
  (forall a, p <= a < p + Z.of_nat n -> m a = m' a) ->
  le_bytes m p n = le_bytes m' p n.
Proof.
  revert p; induction n as [|n IH]; intros p H; simpl; [reflexivity|].
  rewrite (H p) by lia. rewrite (IH (p + 1)); [reflexivity|].
  intros a Ha. apply H. lia.
Qed.

Lemma read_len_ext (m m' : Z -> Z) p :
  0 <= LEN ->
  (forall a, p <= a < p + LEN -> m a = m' a) ->
  read_len cfg m p = read_len cfg m' p.
Proof.
  intros HL H. unfold read_len.
  rewrite (le_bytes_ext m m'); [reflexivity|].
  intros a Ha. apply H. rewrite Z2Nat.id in Ha by lia. lia.
Qed.

Lemma le_bytes_store_len (m : Z -> Z) p v n k :
  0 <= v -> 0 <= k -> k + Z.of_nat n <= LEN ->
  le_bytes (store_len cfg m p v) (p + k) n = (Z.shiftr v (8 * k)) mod 2 ^ (8 * Z.of_nat n).
Proof.
  revert k; induction n as [|n IH]; intros k Hv Hk Hn; simpl le_bytes.
  - simpl. rewrite Z.mod_1_r. reflexivity.
  - unfold store_len at 1.
    replace ((p <=? p + k) && (p + k <? p + LEN)) with true
      by (symmetry; apply andb_true_iff; split; [apply Z.leb_le | apply Z.ltb_lt]; lia).
    replace (p + k + 1) with (p + (k + 1)) by lia.
    rewrite IH by lia.
    replace (p + k - p) with k by lia.
    set (w := Z.shiftr v (8 * k)).
    assert (Hw : Z.shiftr v (8 * (k + 1)) = w / 256).
    { unfold w. rewrite Z.shiftr_div_pow2 by lia. rewrite Z.shiftr_div_pow2 by lia.
      rewrite Z.div_div by (try apply Z.pow_nonneg; lia).
      f_equal. replace (8 * (k + 1)) with (8 * k + 8) by lia.
      rewrite Z.pow_add_r by lia. reflexivity. }
    rewrite Hw.
    change 255 with (Z.ones 8). rewrite Z.land_ones by lia.
    replace (8 * Z.of_nat (S n)) with (8 + 8 * Z.of_nat n) by lia.
    rewrite Z.pow_add_r by lia.
    change (2 ^ 8) with 256.
    rewrite (Z.rem_mul_r w 256 (2 ^ (8 * Z.of_nat n))) by (try apply Z.pow_pos_nonneg; lia).
    reflexivity.
Qed.

Lemma read_len_store_len (m : Z -> Z) p v :
  1 <= LEN -> 0 <= v < len_limit cfg ->
  read_len cfg (store_len cfg m p v) p = v.
Proof.
  intros HL Hv.
  assert (Hlim : len_limit cfg <= 2 ^ (8 * LEN)).
  { unfold len_limit. destruct (LEN_TYPE_SIGNED cfg); [|lia].
    apply Z.pow_le_mono_r; lia. }
  assert (Hb : le_bytes (store_len cfg m p v) p (Z.to_nat LEN) = v).
  { pose proof (le_bytes_store_len m p v (Z.to_nat LEN) 0) as E.
    rewrite Z.add_0_r, Z2Nat.id, Z.shiftr_0_r in E by lia.
    rewrite E by (rewrite ?Z2Nat.id; lia). apply Z.mod_small. lia. }
  unfold read_len. cbv zeta. rewrite Hb.
  unfold len_limit in Hv. destruct (LEN_TYPE_SIGNED cfg); cbn [andb]; [|reflexivity].
  destruct (Z.leb_spec (2 ^ (8 * LEN - 1)) v); [lia | reflexivity].
Qed.

End Bytes.

Section Heap.

Variable cfg : umm_config.

Lemma check_poison_ret ptr n side s v s' :
  check_poison ptr n side s = Ret v s' -> v = 1 /\ s' = s.
Proof.
  unfold check_poison, bind, get, ret, dbglog_error, APP_ERROR_CHECK_BOOL.
  destruct (scan_poison (mem s) ptr 0 (Z.to_nat n)); intro H; inversion H; auto.
Qed.

Lemma check_poison_block_ret c s v s' :
  check_poison_block cfg c s = Ret v s' ->
  v = 1 /\ mem s' = mem s /\ nblock s' = nblock s /\ umm_heap s' = umm_heap s.
Proof.
  unfold check_poison_block, bind at 1, get at 1.
  destruct (negb (Z.land (nblock s c) UMM_FREELIST_MASK =? 0)).
  - unfold bind, dbglog_error, ret. intro H. inversion H. subst. simpl. auto.
  - unfold bind at 1.
    destruct (check_poison _ _ _ s) as [v1 s1|s1] eqn:E1; [|discriminate].
    apply check_poison_ret in E1 as [-> ->]. simpl.
    unfold bind at 1, get at 1, bind at 1.
    destruct (check_poison _ _ _ s) as [v2 s2|s2] eqn:E2; [|discriminate].
    apply check_poison_ret in E2 as [-> ->]. simpl.
    unfold ret. intro H. inversion H. auto.
Qed.

Lemma check_poison_block_intact c s :
  is_free s c = false -> alloc_intact cfg s c = true ->
  check_poison_block cfg c s = Ret 1 s.
Proof.
  unfold is_free, alloc_intact. intros Hu Hi.
  apply andb_true_iff in Hi as [Hi Ha]. apply andb_true_iff in Hi as [_ Hb].
  unfold check_poison_block, bind, get, ret. rewrite Hu.
  unfold check_poison, bind, get, ret. rewrite Hb. simpl. rewrite Ha. reflexivity.
Qed.

Lemma verify_blocks_intact s l :
  forallb (fun c => is_free s c || alloc_intact cfg s c) l = true ->
  verify_blocks cfg (used_blocks s l) s = Ret 1 s.
Proof.
  induction l as [|c l IH]; simpl; intro H; [reflexivity|].
  apply andb_true_iff in H as [Hc H].
  destruct (is_free s c) eqn:Ef; simpl; [apply IH, H|].
  unfold bind at 1. rewrite check_poison_block_intact by assumption.
  apply IH, H.
Qed.

End Heap.


Section Scan.

Variable cfg : umm_config.

Lemma bind_Ret {A B} (m : M A) (f : A -> M B) s a s' :
  m s = Ret a s' -> bind m f s = f a s'.
Proof. intro H. unfold bind. rewrite H. reflexivity. Qed.

Lemma bind_Fatal {A B} (m : M A) (f : A -> M B) s s' :
  m s = Fatal s' -> bind m f s = Fatal s'.
Proof. intro H. unfold bind. rewrite H. reflexivity. Qed.

Lemma bind_assoc {A B C} (m : M A) (f : A -> M B) (g : B -> M C) s :
  bind (bind m f) g s = bind m (fun a => bind (f a) g) s.
Proof. unfold bind. destruct (m s); reflexivity. Qed.

Lemma used_blocks_nblock s s' l :
  nblock s' = nblock s -> used_blocks s' l = used_blocks s l.
Proof. intro H. unfold used_blocks, is_free. rewrite H. reflexivity. Qed.

(** The [while] loop of [umm_poison_check], started at [cur] on a chain
    that ends, verifies the used blocks of the chain in order. *)
Lemma check_loop_verify l : forall cur s fuel,
  chain_b (nblock s) cur l = true -> (List.length l < fuel)%nat ->
  check_loop cfg fuel cur 1 s = (r <- verify_blocks cfg (used_blocks s l) ;; ret (Some r)) s.
Proof.
  induction l as [|c l IH]; intros cur s fuel Hc Hf;
    (destruct fuel as [|fuel]; [simpl in Hf; lia|]); simpl in Hc.
  - apply Z.eqb_eq in Hc. simpl. unfold bind, get, ret. rewrite Hc. reflexivity.
  - apply andb_true_iff in Hc as [Hc Hrest]. apply andb_true_iff in Hc as [Hcc Hnz].
    apply Z.eqb_eq in Hcc. subst c. apply negb_true_iff in Hnz.
    simpl check_loop. unfold bind at 1, get at 1. rewrite Hnz.
    unfold used_blocks at 1. simpl filter. unfold is_free at 1.
    destruct (Z.land (nblock s cur) UMM_FREELIST_MASK =? 0) eqn:Ef; simpl negb; cbv iota.
    + cbn [verify_blocks]. rewrite bind_assoc.
      destruct (check_poison_block cfg cur s) as [v s'|s'] eqn:E;
        [|rewrite !(bind_Fatal _ _ _ _ E); reflexivity].
      rewrite !(bind_Ret _ _ _ _ _ E).
      apply check_poison_block_ret in E as (-> & _ & Hnb & _).
      cbn [Z.eqb]. unfold bind at 1, get at 1. rewrite Hnb.
      fold (used_blocks s l). rewrite <- (used_blocks_nblock s s' l Hnb).
      apply IH; [rewrite Hnb; exact Hrest | simpl in Hf; lia].
    + fold (used_blocks s l). apply IH; [exact Hrest | simpl in Hf; lia].
Qed.

End Scan.

(** ** Runs on the concrete heap *)

Example demo_malloc_ptr :
  result_of (umm_poison_malloc cfg_std demo_alloc 10 heap0) = Some (0x20000000 + 12 + 6).
Proof. vm_compute. reflexivity. Qed.

Example demo_malloc_check :
  result_of ((umm_poison_malloc cfg_std demo_alloc 10 ;; umm_poison_check cfg_std demo_alloc 30) heap0)
  = Some (Some 1).
Proof. vm_compute. reflexivity. Qed.


(** ** The heap-wide scan *)

Lemma umm_poison_check_run (cfg : umm_config) (al : allocator) s l fuel :
  let s1 := if umm_heap s =? NULL then umm_init al s else s in
  chain_b (nblock s1) (next_blk s1 0) l = true ->
  (List.length l < fuel)%nat ->
  umm_poison_check cfg al fuel s
  = (r <- verify_blocks cfg (used_blocks s1 l) ;; ret (Some r)) s1.
Proof.
  intros s1 Hc Hf. unfold umm_poison_check.
  unfold bind at 1, get at 1.
  unfold s1 in *. destruct (umm_heap s =? NULL).
  - unfold bind at 1, call_init. unfold bind at 1, get at 1.
    apply check_loop_verify; assumption.
  - unfold bind at 1, ret. unfold bind at 1, get at 1.
    apply check_loop_verify; assumption.
Qed.

(** C9: [umm_poison_check] first initialises the heap when [umm_heap] is
    NULL; then, from the chain head [UMM_NBLOCK(0) & UMM_BLOCKNO_MASK], it
    follows the masked next indices in a single pass (at most one iteration
    per chain block), verifies every traversed block whose free bit is clear,
    in chain order, stops with failure at the first violation
    ([verify_blocks]) and otherwise returns 1 once it reaches a block whose
    next index is zero. *)
Theorem umm_poison_check_scans (cfg : umm_config) (al : allocator) s l fuel :
  let s1 := if umm_heap s =? NULL then umm_init al s else s in
  chain_b (nblock s1) (next_blk s1 0) l = true ->
  (List.length l < fuel)%nat ->
  umm_poison_check cfg al fuel s
  = (r <- verify_blocks cfg (used_blocks s1 l) ;; ret (Some r)) s1.
Proof. apply umm_poison_check_run. Qed.

Lemma umm_poison_check_scans_witness :
  umm_poison_check cfg_std demo_alloc 2 heap1
  = (r <- verify_blocks cfg_std (used_blocks heap1 [1]) ;; ret (Some r)) heap1.
Proof.
  apply (umm_poison_check_scans cfg_std demo_alloc heap1 [1] 2);
    [vm_compute; reflexivity | simpl; lia].
Defined.

(** ** Layout of the chain *)

Section Layout.

Variable cfg : umm_config.
Local Abbreviation BEFORE := (UMM_POISON_SIZE_BEFORE cfg).
Local Abbreviation AFTER := (UMM_POISON_SIZE_AFTER cfg).
Local Abbreviation LEN := (LEN_TYPE_SIZE cfg).

Lemma chain_ge nb cur l :
  chain_b nb cur l = true -> ascending nb l = true -> Forall (fun d => cur <= d) l.
Proof.
  revert cur; induction l as [|c l IH]; intros cur Hc Ha; [constructor|].
  simpl in Hc, Ha.
  apply andb_true_iff in Hc as [Hc Hrest]. apply andb_true_iff in Hc as [Hcc _].
  apply Z.eqb_eq in Hcc. subst c.
  apply andb_true_iff in Ha as [Hc Ha]. apply andb_true_iff in Hc as [H0 Hlt].
  apply Z.ltb_lt in Hlt.
  constructor; [lia|].
  specialize (IH _ Hrest Ha).
  eapply Forall_impl; [|exact IH]. simpl. intros. lia.
Qed.

(** Two distinct blocks of an ascending chain do not overlap. *)
Lemma chain_disjoint nb cur l c d :
  chain_b nb cur l = true -> ascending nb l = true ->
  In c l -> In d l -> c <> d ->
  Z.land (nb c) UMM_BLOCKNO_MASK <= d \/ Z.land (nb d) UMM_BLOCKNO_MASK <= c.
Proof.
  revert cur; induction l as [|e l IH]; intros cur Hc Ha Hin Hdn Hne; [destruct Hin|].
  pose proof (chain_ge nb cur (e :: l) Hc Ha) as Hge.
  simpl in Hc, Ha.
  apply andb_true_iff in Hc as [Hc Hrest]. apply andb_true_iff in Hc as [Hcc _].
  apply Z.eqb_eq in Hcc. subst e.
  apply andb_true_iff in Ha as [_ Ha'].
  pose proof (chain_ge nb _ l Hrest Ha') as Hge'.
  rewrite Forall_forall in Hge'.
  destruct Hin as [<-|Hin], Hdn as [<-|Hdn].
  - congruence.
  - left. apply Hge', Hdn.
  - right. apply Hge', Hin.
  - eapply IH; eassumption.
Qed.

(** First occurrence of an element. *)
Lemma in_split_first (c : Z) l :
  In c l -> exists l1 l2, l = l1 ++ c :: l2 /\ ~ In c l1.
Proof.
  induction l as [|e l IH]; intro H; [destruct H|].
  destruct (Z.eq_dec e c) as [->|Hne].
  - exists [], l. split; [reflexivity | intros []].
  - destruct H as [->|H]; [congruence|].
    destruct (IH H) as (l1 & l2 & -> & Hn).
    exists (e :: l1), l2. split; [reflexivity|].
    intros [->|H']; [congruence | exact (Hn H')].
Qed.

(** An intact allocation stays intact when memory changes only outside its
    block. *)
Lemma alloc_intact_frame s s' d :
  cfg_ok cfg = true ->
  umm_heap s' = umm_heap s -> nblock s' = nblock s ->
  (forall a, data_addr s d <= a < block_addr s (next_blk s d) -> mem s' a = mem s a) ->
  alloc_intact cfg s d = true -> alloc_intact cfg s' d = true.
Proof.
  intros Hcfg Hh Hn Hm Hi.
  unfold cfg_ok in Hcfg. rewrite !andb_true_iff, !Z.leb_le in Hcfg.
  unfold alloc_intact in *.
  assert (Ed : data_addr s' d = data_addr s d) by (unfold data_addr, block_addr; rewrite Hh; reflexivity).
  assert (En : block_addr s' (next_blk s' d) = block_addr s (next_blk s d))
    by (unfold block_addr, next_blk; rewrite Hh, Hn; reflexivity).
  rewrite Ed, En.
  rewrite !andb_true_iff, !Z.leb_le in Hi. destruct Hi as [[[Hv Hb] Hsb] Hsa].
  set (p := data_addr s d) in *.
  assert (Er : read_len cfg (mem s') p = read_len cfg (mem s) p).
  { apply read_len_ext; [lia|]. intros a Ha. apply Hm. lia. }
  rewrite Er. set (v := read_len cfg (mem s) p) in *.
  rewrite !andb_true_iff, !Z.leb_le. repeat split; try lia.
  - rewrite (scan_poison_ext (mem s') (mem s)); [exact Hsb|].
    intros a Ha. rewrite Z2Nat.id in Ha by lia. apply Hm. lia.
  - rewrite (scan_poison_ext (mem s') (mem s)); [exact Hsa|].
    intros a Ha. rewrite Z2Nat.id in Ha by lia. apply Hm. lia.
Qed.

End Layout.

(** ** What [get_poisoned] writes *)

Ltac zcases :=
  repeat match goal with
  | |- context [?a <=? ?b] => destruct (Z.leb_spec a b)
  | |- context [?a <? ?b] => destruct (Z.ltb_spec a b)
  | |- context [?a =? ?b] => destruct (Z.eqb_spec a b)
  end; cbn [andb orb negb]; try lia.

Section Codec.

Variable cfg : umm_config.
Local Abbreviation BEFORE := (UMM_POISON_SIZE_BEFORE cfg).
Local Abbreviation AFTER := (UMM_POISON_SIZE_AFTER cfg).
Local Abbreviation LEN := (LEN_TYPE_SIZE cfg).

Lemma get_poisoned_run s p t :
  t <> 0 -> p <> NULL ->
  get_poisoned cfg p t s
  = Ret (p + LEN + BEFORE)
      (set_mem s (store_len cfg (memset (memset (mem s) (p + LEN) BEFORE POISON_BYTE)
                                   (p + t - AFTER) AFTER POISON_BYTE) p t)).
Proof.
  intros Ht Hp. unfold get_poisoned.
  rewrite (proj2 (Z.eqb_neq t 0) Ht), (proj2 (Z.eqb_neq p NULL) Hp). reflexivity.
Qed.

Lemma cfg_ok_bounds :
  cfg_ok cfg = true ->
  0 <= BEFORE /\ 0 <= AFTER /\ 1 <= LEN /\ 8 * LEN <= SIZE_T_BITS cfg.
Proof. unfold cfg_ok. rewrite !andb_true_iff, !Z.leb_le. tauto. Qed.

Section Poisoned.

Variables (m : Z -> Z) (p t : Z).
Hypothesis Hcfg : cfg_ok cfg = true.
Hypothesis Ht : BEFORE + LEN + AFTER <= t.

Local Abbreviation pm :=
  (store_len cfg (memset (memset m (p + LEN) BEFORE POISON_BYTE)
                   (p + t - AFTER) AFTER POISON_BYTE) p t).

Lemma poisoned_outside a : a < p \/ p + t <= a -> pm a = m a.
Proof using m p t Hcfg Ht.
  pose proof (cfg_ok_bounds Hcfg). intro Ha. unfold store_len, memset. zcases.
Qed.

Lemma poisoned_before a : p + LEN <= a < p + LEN + BEFORE -> pm a = POISON_BYTE.
Proof using m p t Hcfg Ht.
  pose proof (cfg_ok_bounds Hcfg). intro Ha. unfold store_len, memset. zcases.
Qed.

Lemma poisoned_after a : p + t - AFTER <= a < p + t -> pm a = POISON_BYTE.
Proof using m p t Hcfg Ht.
  pose proof (cfg_ok_bounds Hcfg). intro Ha. unfold store_len, memset. zcases.
Qed.

Lemma poisoned_payload a : p + LEN + BEFORE <= a < p + t - AFTER -> pm a = m a.
Proof using m p t Hcfg Ht.
  pose proof (cfg_ok_bounds Hcfg). intro Ha. unfold store_len, memset. zcases.
Qed.

Lemma poisoned_len : t < len_limit cfg -> read_len cfg pm p = t.
Proof using m p t Hcfg Ht.
  pose proof (cfg_ok_bounds Hcfg). intro Hl. apply read_len_store_len; lia.
Qed.

End Poisoned.

End Codec.

(** ** The length record *)

Lemma poison_size_nonzero cfg S :
  S <> 0 -> poison_size cfg S
            = UMM_POISON_SIZE_BEFORE cfg + LEN_TYPE_SIZE cfg + UMM_POISON_SIZE_AFTER cfg.
Proof. intro H. unfold poison_size. rewrite (proj2 (Z.eqb_neq S 0) H). reflexivity. Qed.

Lemma size_add_no_wrap cfg a b :
  0 <= a + b < size_max_plus_one cfg -> size_add cfg a b = a + b.
Proof. intro H. unfold size_add. apply Z.mod_small. exact H. Qed.

(** C5 (as amended): for a user size [S > 0] such that
    [S + poison_size(S)] neither wraps [size_t] nor leaves the range of
    [UMM_POISONED_BLOCK_LEN_TYPE], the length record written by
    [umm_poison_malloc] reads back as exactly
    [sizeof(length record) + UMM_POISON_SIZE_BEFORE + UMM_POISON_SIZE_AFTER + S],
    whatever block the allocator granted, and the after guard that
    [check_poison_block] locates from that value,
    [raw + value - UMM_POISON_SIZE_AFTER], is the one written, all
    [POISON_BYTE]. *)
Theorem umm_poison_malloc_len_record (cfg : umm_config) (al : allocator) S s s1 p :
  cfg_ok cfg = true -> 0 < S ->
  S + poison_size cfg S < size_max_plus_one cfg ->
  S + poison_size cfg S < len_limit cfg ->
  umm_malloc al (size_add cfg S (poison_size cfg S)) s = (s1, p) -> p <> NULL ->
  exists s2,
    umm_poison_malloc cfg al S s = Ret (p + LEN_TYPE_SIZE cfg + UMM_POISON_SIZE_BEFORE cfg) s2 /\
    read_len cfg (mem s2) p
      = LEN_TYPE_SIZE cfg + UMM_POISON_SIZE_BEFORE cfg + UMM_POISON_SIZE_AFTER cfg + S /\
    scan_poison (mem s2) (p + read_len cfg (mem s2) p - UMM_POISON_SIZE_AFTER cfg) 0
      (Z.to_nat (UMM_POISON_SIZE_AFTER cfg)) = true.
Proof.
  intros Hcfg HS Hw Hl Hm Hp.
  pose proof (cfg_ok_bounds cfg Hcfg) as Hb.
  rewrite poison_size_nonzero in Hw, Hl, Hm by lia.
  rewrite size_add_no_wrap in Hm by lia.
  set (t := S + _) in Hw, Hl, Hm.
  assert (Ht : UMM_POISON_SIZE_BEFORE cfg + LEN_TYPE_SIZE cfg + UMM_POISON_SIZE_AFTER cfg <= t)
    by (unfold t; lia).
  eexists. split; [|split].
  - unfold umm_poison_malloc. rewrite poison_size_nonzero by lia.
    rewrite size_add_no_wrap by lia. fold t.
    unfold bind, call_malloc. rewrite Hm.
    rewrite get_poisoned_run by lia. reflexivity.
  - cbn [mem set_mem]. rewrite poisoned_len by assumption. unfold t. lia.
  - cbn [mem set_mem]. rewrite poisoned_len by assumption.
    apply scan_poison_true. intros k Hk. rewrite Z2Nat.id in Hk by lia.
    apply poisoned_after; auto. lia.
Qed.

Lemma umm_poison_malloc_len_record_witness :
  exists s2,
    umm_poison_malloc cfg_std demo_alloc 10 heap0 = Ret (0x20000000 + 12 + 2 + 4) s2 /\
    read_len cfg_std (mem s2) (0x20000000 + 12) = 2 + 4 + 4 + 10 /\
    scan_poison (mem s2) (0x20000000 + 12 + read_len cfg_std (mem s2) (0x20000000 + 12) - 4) 0
      (Z.to_nat 4) = true.
Proof.
  apply (umm_poison_malloc_len_record cfg_std demo_alloc 10 heap0
           (fst (umm_malloc demo_alloc 20 heap0)) (0x20000000 + 12));
    try (vm_compute; reflexivity); vm_compute; congruence.
Defined.

(** C5 fails as stated: when [S + poison_size(S)] wraps [size_t]
    ([S = 2^32 - 5] on a 32-bit target) the length record holds the wrapped
    total 5, and when the total exceeds the range of a [short] length
    record ([S = 40000]) it reads back negative. *)
Lemma umm_poison_malloc_len_record_cex :
  (let o := umm_poison_malloc cfg_std demo_alloc (2 ^ 32 - 5) heap0 in
   result_of o = Some (0x20000000 + 12 + 2 + 4) /\
   read_len cfg_std (mem (state_of o)) (0x20000000 + 12) = 5 /\
   read_len cfg_std (mem (state_of o)) (0x20000000 + 12) <> 2 + 4 + 4 + (2 ^ 32 - 5)) /\
  (let o := umm_poison_malloc cfg_std demo_alloc 40000 heap0 in
   result_of o = Some (0x20000000 + 12 + 2 + 4) /\
   read_len cfg_std (mem (state_of o)) (0x20000000 + 12) = 40010 - 65536 /\
   read_len cfg_std (mem (state_of o)) (0x20000000 + 12) <> 2 + 4 + 4 + 40000).
Proof.
  split; (split; [|split]); vm_compute; (reflexivity || congruence).
Qed.

(** ** Allocation followed by the scan *)

(** C2 (as amended): for a size [> 0] such that [size + poison_size(size)]
    neither wraps [size_t] nor leaves the range of the length record, if the
    underlying allocator grants a used chain block with room for that total
    and every other used block of the heap holds an intact poisoned
    allocation, then [umm_poison_malloc(size)] immediately followed by
    [umm_poison_check()] returns 1. *)
Theorem umm_poison_malloc_then_check (cfg : umm_config) (al : allocator)
    size s s1 p l c fuel :
  cfg_ok cfg = true -> 0 < size ->
  size + poison_size cfg size < size_max_plus_one cfg ->
  size + poison_size cfg size < len_limit cfg ->
  umm_malloc al (size_add cfg size (poison_size cfg size)) s = (s1, p) ->
  fresh_block cfg s1 l c p (size + poison_size cfg size) = true ->
  (List.length l < fuel)%nat ->
  exists s2, (umm_poison_malloc cfg al size ;; umm_poison_check cfg al fuel) s = Ret (Some 1) s2.
Proof.
  intros Hcfg Hsz Hw Hl Hm Hf Hfuel.
  pose proof (cfg_ok_bounds cfg Hcfg) as Hb.
  rewrite poison_size_nonzero in Hw, Hl, Hm, Hf by lia.
  rewrite size_add_no_wrap in Hm by lia.
  set (t := size + _) in Hw, Hl, Hm, Hf.
  assert (Ht : UMM_POISON_SIZE_BEFORE cfg + LEN_TYPE_SIZE cfg + UMM_POISON_SIZE_AFTER cfg <= t)
    by (unfold t; lia).
  unfold fresh_block in Hf. rewrite !andb_true_iff in Hf.
  destruct Hf as [[[[[[[Hh Hc] Ha] Hin] Hu] Hp] Hroom] Hall].
  apply Z.ltb_lt in Hh. apply negb_true_iff in Hu. apply Z.eqb_eq in Hp.
  apply Z.leb_le in Hroom. rewrite forallb_forall in Hall.
  apply existsb_exists in Hin as (c' & Hin & Hcc). apply Z.eqb_eq in Hcc. subst c'.
  assert (Hc0 : 0 <= c).
  { unfold ascending in Ha. rewrite forallb_forall in Ha.
    specialize (Ha c Hin). rewrite andb_true_iff, Z.leb_le in Ha. tauto. }
  assert (Hpn : p <> NULL)
    by (rewrite Hp; unfold data_addr, block_addr, umm_block_size, umm_header_size, NULL; lia).
  set (pm := store_len cfg (memset (memset (mem s1) (p + LEN_TYPE_SIZE cfg)
               (UMM_POISON_SIZE_BEFORE cfg) POISON_BYTE) (p + t - UMM_POISON_SIZE_AFTER cfg)
               (UMM_POISON_SIZE_AFTER cfg) POISON_BYTE) p t).
  assert (E1 : umm_poison_malloc cfg al size s
               = Ret (p + LEN_TYPE_SIZE cfg + UMM_POISON_SIZE_BEFORE cfg) (set_mem s1 pm)).
  { unfold umm_poison_malloc. rewrite poison_size_nonzero by lia.
    rewrite size_add_no_wrap by lia. fold t.
    unfold bind at 1, call_malloc. rewrite Hm.
    apply get_poisoned_run; lia. }
  rewrite (bind_Ret _ _ _ _ _ E1).
  pose proof (umm_poison_check_run cfg al (set_mem s1 pm) l fuel) as HR.
  cbv zeta in HR. cbn [umm_heap set_mem] in HR.
  rewrite (proj2 (Z.eqb_neq (umm_heap s1) NULL)) in HR by (unfold NULL; lia).
  rewrite HR by assumption. clear HR.
  assert (Hall2 : forallb (fun d => is_free (set_mem s1 pm) d
                                   || alloc_intact cfg (set_mem s1 pm) d) l = true).
  { apply forallb_forall. intros d Hd.
    change (is_free (set_mem s1 pm) d) with (is_free s1 d).
    destruct (is_free s1 d) eqn:Efd; [reflexivity|]. cbn [orb].
    destruct (Z.eq_dec d c) as [->|Hne].
    - unfold alloc_intact.
      replace (data_addr (set_mem s1 pm) c) with p by exact Hp.
      change (block_addr (set_mem s1 pm) (next_blk (set_mem s1 pm) c))
        with (block_addr s1 (next_blk s1 c)).
      change (mem (set_mem s1 pm)) with pm.
      assert (Hlen : read_len cfg pm p = t) by (apply poisoned_len; assumption).
      rewrite Hlen.
      rewrite !andb_true_iff, !Z.leb_le. split; [split; [split|]|]; try lia.
      + apply scan_poison_true. intros k Hk. rewrite Z2Nat.id in Hk by lia.
        apply poisoned_before; auto. lia.
      + apply scan_poison_true. intros k Hk. rewrite Z2Nat.id in Hk by lia.
        apply poisoned_after; auto. lia.
    - specialize (Hall d Hd). rewrite Efd, (proj2 (Z.eqb_neq d c) Hne) in Hall.
      cbn [orb] in Hall.
      apply (alloc_intact_frame cfg s1); [exact Hcfg | reflexivity | reflexivity | | exact Hall].
      intros a Hra. change (mem (set_mem s1 pm) a) with (pm a).
      unfold pm. apply poisoned_outside; auto.
      destruct (chain_disjoint (nblock s1) _ l c d Hc Ha Hin Hd (fun e => Hne (eq_sym e)))
        as [Hcd|Hdc];
        revert Hra Hroom; rewrite Hp; unfold data_addr, block_addr, next_blk,
          umm_block_size, umm_header_size in *; intros; nia. }
  rewrite (bind_Ret _ _ _ _ _ (verify_blocks_intact cfg _ l Hall2)).
  eexists. reflexivity.
Qed.

Lemma umm_poison_malloc_then_check_witness :
  exists s2, (umm_poison_malloc cfg_std demo_alloc 10 ;; umm_poison_check cfg_std demo_alloc 2) heap0
             = Ret (Some 1) s2.
Proof.
  apply (umm_poison_malloc_then_check cfg_std demo_alloc 10 heap0
           (fst (umm_malloc demo_alloc 20 heap0)) (0x20000000 + 12) [1] 1 2);
    vm_compute; reflexivity.
Defined.

(** C2 fails as stated, in three ways: when [size + poison_size(size)]
    wraps [size_t] ([size = 2^32 - 5], total 5, whose length record
    overlaps the after guard), when the total leaves the range of a [short]
    length record ([size = 40000]), and when another used block of the heap
    was already corrupted before the call. In each case the allocation
    succeeds and the scan that follows stops on a violation. *)
Lemma umm_poison_malloc_then_check_cex :
  (result_of (umm_poison_malloc cfg_std demo_alloc (2 ^ 32 - 5) heap0)
     = Some (0x20000000 + 12 + 2 + 4) /\
   result_of ((umm_poison_malloc cfg_std demo_alloc (2 ^ 32 - 5) ;;
               umm_poison_check cfg_std demo_alloc 2) heap0) = None) /\
  (result_of (umm_poison_malloc cfg_std demo_alloc 40000 heap0)
     = Some (0x20000000 + 12 + 2 + 4) /\
   result_of ((umm_poison_malloc cfg_std demo_alloc 40000 ;;
               umm_poison_check cfg_std demo_alloc 2) heap0) = None) /\
  (result_of (umm_poison_malloc cfg_std demo_alloc 10 heap_bad)
     = Some (0x20000000 + 12 + 2 + 4) /\
   result_of ((umm_poison_malloc cfg_std demo_alloc 10 ;;
               umm_poison_check cfg_std demo_alloc 3) heap_bad) = None).
Proof. vm_compute. repeat split. Qed.

(** ** One corrupted guard byte *)

Section Corrupt.

Variable cfg : umm_config.
Local Abbreviation BEFORE := (UMM_POISON_SIZE_BEFORE cfg).
Local Abbreviation AFTER := (UMM_POISON_SIZE_AFTER cfg).
Local Abbreviation LEN := (LEN_TYPE_SIZE cfg).

Lemma check_poison_pass ptr n side s :
  scan_poison (mem s) ptr 0 (Z.to_nat n) = true -> check_poison ptr n side s = Ret 1 s.
Proof. intro H. unfold check_poison, bind, get, ret. rewrite H. reflexivity. Qed.

Lemma check_poison_fail ptr n side s :
  scan_poison (mem s) ptr 0 (Z.to_nat n) = false ->
  check_poison ptr n side s = Fatal (add_log s (NoPoison side ptr (dump_mem (mem s) ptr n))).
Proof. intro H. unfold check_poison, bind, get, ret. rewrite H. reflexivity. Qed.

Lemma guard_in_block s c g x :
  cfg_ok cfg = true -> alloc_intact cfg s c = true ->
  guard_start cfg s c g <= x < guard_start cfg s c g + guard_len cfg g ->
  data_addr s c + LEN <= x < data_addr s c + read_len cfg (mem s) (data_addr s c) /\
  data_addr s c + read_len cfg (mem s) (data_addr s c) <= block_addr s (next_blk s c).
Proof.
  intros Hcfg Hi Hx. pose proof (cfg_ok_bounds cfg Hcfg).
  unfold alloc_intact in Hi. rewrite !andb_true_iff, !Z.leb_le in Hi.
  destruct Hi as [[[Hv Hb] _] _].
  destruct g; unfold guard_start, guard_len in Hx; simpl in Hx; lia.
Qed.

Lemma check_poison_block_violation s c g x b :
  cfg_ok cfg = true -> is_free s c = false -> alloc_intact cfg s c = true ->
  guard_start cfg s c g <= x < guard_start cfg s c g + guard_len cfg g ->
  b <> POISON_BYTE ->
  let s' := set_mem s (poke (mem s) x b) in
  check_poison_block cfg c s'
  = Fatal (add_log s' (NoPoison (side_name g) (guard_start cfg s c g)
                         (dump_mem (mem s') (guard_start cfg s c g) (guard_len cfg g)))).
Proof.
  intros Hcfg Hu Hi Hx Hbx s'. pose proof (cfg_ok_bounds cfg Hcfg) as Hcb.
  pose proof (guard_in_block s c g x Hcfg Hi Hx) as [Hxr _].
  unfold alloc_intact in Hi. rewrite !andb_true_iff, !Z.leb_le in Hi.
  destruct Hi as [[[Hv _] Hsb] Hsa].
  set (p := data_addr s c) in *. set (v := read_len cfg (mem s) p) in *.
  assert (Hx' : mem s' x = b) by (unfold s'; cbn; unfold poke; rewrite Z.eqb_refl; reflexivity).
  assert (Hlen : read_len cfg (mem s') p = v).
  { apply read_len_ext; [lia|]. intros a Ha. unfold s'; cbn; unfold poke.
    destruct (Z.eqb_spec a x); [lia | reflexivity]. }
  unfold check_poison_block, bind at 1, get at 1. cbv beta zeta.
  change (nblock s') with (nblock s). unfold is_free in Hu. rewrite Hu. cbn [negb].
  change (data_addr s' c) with p.
  destruct g.
  - (* the before guard *)
    unfold guard_start, guard_len in *. fold p in Hx |- *.
    assert (Es : scan_poison (mem s') (p + LEN) 0 (Z.to_nat BEFORE) = false).
    { destruct (scan_poison (mem s') (p + LEN) 0 (Z.to_nat BEFORE)) eqn:E; [|reflexivity].
      exfalso.
      apply scan_poison_true with (k := x - (p + LEN)) in E; [|rewrite Z2Nat.id; lia].
      replace (p + LEN + (x - (p + LEN))) with x in E by lia. congruence. }
    apply (bind_Fatal _ _ _ _ (check_poison_fail _ _ _ _ Es)).
  - (* the after guard *)
    unfold guard_start, guard_len in *. fold p v in Hx |- *.
    assert (Eb : scan_poison (mem s') (p + LEN) 0 (Z.to_nat BEFORE) = true).
    { rewrite (scan_poison_ext (mem s') (mem s)); [exact Hsb|].
      intros a Ha. rewrite Z2Nat.id in Ha by lia. unfold s'; cbn; unfold poke.
      destruct (Z.eqb_spec a x); [lia | reflexivity]. }
    assert (Es : scan_poison (mem s') (p + v - AFTER) 0 (Z.to_nat AFTER) = false).
    { destruct (scan_poison (mem s') (p + v - AFTER) 0 (Z.to_nat AFTER)) eqn:E; [|reflexivity].
      exfalso.
      apply scan_poison_true with (k := x - (p + v - AFTER)) in E; [|rewrite Z2Nat.id; lia].
      replace (p + v - AFTER + (x - (p + v - AFTER))) with x in E by lia. congruence. }
    rewrite (bind_Ret _ _ _ _ _ (check_poison_pass _ _ _ _ Eb)). cbn [Z.eqb].
    unfold bind at 1, get at 1. cbv beta zeta. rewrite Hlen.
    apply (bind_Fatal _ _ _ _ (check_poison_fail _ _ _ _ Es)).
Qed.

Lemma verify_blocks_pass l1 l2 s :
  (forall d, In d l1 -> check_poison_block cfg d s = Ret 1 s) ->
  verify_blocks cfg (l1 ++ l2) s = verify_blocks cfg l2 s.
Proof.
  induction l1 as [|d l1 IH]; intro H; [reflexivity|].
  simpl. rewrite (bind_Ret _ _ _ _ _ (H d (or_introl eq_refl))). cbn [Z.eqb].
  apply IH. intros e He. apply H. right. exact He.
Qed.

End Corrupt.

(** C1: in a heap of live poisoned allocations (initialised, ascending
    chain [l], every used block of [l] holding an intact poisoned
    allocation), overwrite one byte [x] of the guard region [g] of a used
    block [c] with a value other than [POISON_BYTE]: the next
    [umm_poison_check()] fails, stopping at the fatal assertion, and the
    single diagnostic it logs names the side ("before" or "after") of that
    guard and the address of that guard region of [c]. *)
Theorem umm_poison_check_detects_corruption (cfg : umm_config) (al : allocator)
    s l c g x b fuel :
  cfg_ok cfg = true -> live_heap cfg s l = true ->
  In c l -> is_free s c = false ->
  guard_start cfg s c g <= x < guard_start cfg s c g + guard_len cfg g ->
  0 <= b < 256 -> b <> POISON_BYTE ->
  (List.length l < fuel)%nat ->
  let s' := set_mem s (poke (mem s) x b) in
  umm_poison_check cfg al fuel s'
  = Fatal (add_log s' (NoPoison (side_name g) (guard_start cfg s c g)
                         (dump_mem (mem s') (guard_start cfg s c g) (guard_len cfg g)))).
Proof.
  intros Hcfg Hlive Hin Hu Hx Hb Hbx Hf s'.
  unfold live_heap in Hlive. rewrite !andb_true_iff in Hlive.
  destruct Hlive as [[[Hh Hc] Ha] Hall]. apply Z.ltb_lt in Hh.
  rewrite forallb_forall in Hall.
  assert (Hic : alloc_intact cfg s c = true) by (specialize (Hall c Hin); rewrite Hu in Hall; exact Hall).
  pose proof (guard_in_block cfg s c g x Hcfg Hic Hx) as [Hxr Hroom].
  pose proof (umm_poison_check_run cfg al s' l fuel) as HR.
  cbv zeta in HR. change (umm_heap s') with (umm_heap s) in HR.
  rewrite (proj2 (Z.eqb_neq (umm_heap s) NULL)) in HR by (unfold NULL; lia).
  rewrite HR by assumption. clear HR.
  destruct (in_split_first c l Hin) as (l1 & l2 & Hl & Hn1).
  rewrite Hl. unfold used_blocks. rewrite filter_app. cbn [filter].
  change (is_free s' c) with (is_free s c). rewrite Hu. cbn [negb].
  unfold bind at 1. rewrite verify_blocks_pass.
  - cbn [verify_blocks].
    rewrite (bind_Fatal _ _ _ _ (check_poison_block_violation cfg s c g x b Hcfg Hu Hic Hx Hbx)).
    reflexivity.
  - intros d Hd. apply filter_In in Hd as [Hd Hud].
    change (is_free s' d) with (is_free s d) in Hud. apply negb_true_iff in Hud.
    assert (Hne : c <> d) by (intro E; subst d; exact (Hn1 Hd)).
    assert (HdI : In d l) by (rewrite Hl; apply in_or_app; left; exact Hd).
    apply check_poison_block_intact; [exact Hud|].
    specialize (Hall d HdI). rewrite Hud in Hall.
    apply (alloc_intact_frame cfg s); [exact Hcfg | reflexivity | reflexivity | | exact Hall].
    intros a Ha'. unfold s'. cbn [mem set_mem]. unfold poke.
    destruct (Z.eqb_spec a x) as [->|]; [exfalso|reflexivity].
    pose proof (cfg_ok_bounds cfg Hcfg).
    destruct (chain_disjoint (nblock s) _ l c d Hc Ha Hin HdI Hne) as [Hcd|Hdc];
      revert Ha' Hxr Hroom;
      unfold data_addr, block_addr, next_blk, umm_block_size, umm_header_size in *;
      intros; nia.
Qed.

Lemma umm_poison_check_detects_corruption_witness :
  let s' := set_mem heap1 (poke (mem heap1) (0x20000000 + 15) 0) in
  umm_poison_check cfg_std demo_alloc 2 s'
  = Fatal (add_log s' (NoPoison (side_name GuardBefore) (guard_start cfg_std heap1 1 GuardBefore)
                         (dump_mem (mem s') (guard_start cfg_std heap1 1 GuardBefore)
                            (guard_len cfg_std GuardBefore)))).
Proof.
  apply (umm_poison_check_detects_corruption cfg_std demo_alloc heap1 [1] 1 GuardBefore
           (0x20000000 + 15) 0 2);
    [ vm_compute; reflexivity | vm_compute; reflexivity | left; reflexivity
    | vm_compute; reflexivity | vm_compute; split; congruence | lia
    | vm_compute; congruence | simpl; lia ].
Defined.

Example demo_corrupt_after :
  match umm_poison_check cfg_std demo_alloc 2
          (set_mem heap1 (poke (mem heap1) (0x20000000 + 12 + 20 - 1) 0x5a)) with
  | Fatal s2 => Some (dbglog s2)
  | Ret _ _ => None
  end = Some [NoPoison "after" (0x20000000 + 12 + 20 - 4) [0xa5; 0xa5; 0xa5; 0x5a]].
Proof. vm_compute. reflexivity. Qed.

(** ** Verification of a free block *)

(** C3 (as amended): [check_poison_block] on a block whose free bit is set
    logs the usage error, checks no poison, raises no fatal assertion and
    returns 1, the value of a passing check; nothing else changes. *)
Theorem check_poison_block_free_block (cfg : umm_config) c s :
  is_free s c = true ->
  check_poison_block cfg c s = Ret 1 (add_log s (FreeBlockCheck (block_addr s c))).
Proof.
  intro H. unfold is_free in H.
  unfold check_poison_block, bind, get, dbglog_error, ret. rewrite H. reflexivity.
Qed.

Lemma check_poison_block_free_block_witness :
  check_poison_block cfg_std 1 heap0 = Ret 1 (add_log heap0 (FreeBlockCheck (block_addr heap0 1))).
Proof. apply check_poison_block_free_block. vm_compute. reflexivity. Defined.

(** C3 fails as stated: on the free block 1 of [heap0] the call returns 1,
    not a failure value. *)
Lemma check_poison_block_free_block_cex :
  is_free heap0 1 = true /\ result_of (check_poison_block cfg_std 1 heap0) = Some 1 /\
  dbglog (state_of (check_poison_block cfg_std 1 heap0)) = [FreeBlockCheck (0x20000000 + 8)].
Proof. vm_compute. repeat split. Qed.

(** ** Zero-size requests *)

(** C4: [umm_poison_malloc(0)] adds no overhead: it asks the allocator for
    0 bytes and returns the allocator's pointer in the allocator's state, with
    no poison and no length record written. When that zero-size result is
    NULL (as umm_malloc's is), freeing it with [umm_poison_free] does no poison
    verification: nothing is checked or logged and [umm_free] gets the pointer
    unchanged. *)
Theorem umm_poison_malloc_zero (cfg : umm_config) (al : allocator) s :
  umm_poison_malloc cfg al 0 s = (let (s1, p) := umm_malloc al 0 s in Ret p s1) /\
  (snd (umm_malloc al 0 s) = NULL ->
   (p <- umm_poison_malloc cfg al 0 ;; umm_poison_free cfg al p) s
   = Ret tt (umm_free al NULL (fst (umm_malloc al 0 s)))).
Proof.
  assert (E : umm_poison_malloc cfg al 0 s = (let (s1, p) := umm_malloc al 0 s in Ret p s1)).
  { unfold umm_poison_malloc, poison_size, size_add. cbn [Z.eqb negb].
    rewrite Zmod_0_l.
    unfold bind, call_malloc. destruct (umm_malloc al 0 s) as [s1 p].
    reflexivity. }
  split; [exact E|].
  intro Hn. unfold bind at 1. rewrite E.
  destruct (umm_malloc al 0 s) as [s1 p]. cbn [snd fst] in Hn |- *. subst p.
  reflexivity.
Qed.

Lemma umm_poison_malloc_zero_witness :
  umm_poison_malloc cfg_std demo_alloc 0 heap0 = Ret NULL heap0 /\
  (p <- umm_poison_malloc cfg_std demo_alloc 0 ;; umm_poison_free cfg_std demo_alloc p) heap0
  = Ret tt heap0.
Proof.
  destruct (umm_poison_malloc_zero cfg_std demo_alloc heap0) as [H1 H2].
  split.
  - exact H1.
  - exact (H2 eq_refl).
Defined.

(** ** A NULL result of the allocator *)

(** C6: when the underlying allocator returns NULL, [umm_poison_malloc],
    [umm_poison_calloc] and [umm_poison_realloc] return NULL in exactly the
    state the allocator left: no guard byte or length record is written,
    nothing is logged and no fatal check is raised on that result. *)
Theorem umm_poison_null_propagates (cfg : umm_config) (al : allocator) :
  (forall size s s1,
     umm_malloc al (size_add cfg size (poison_size cfg size)) s = (s1, NULL) ->
     umm_poison_malloc cfg al size s = Ret NULL s1) /\
  (forall num item_size s s1,
     let size := size_mul cfg item_size num in
     umm_malloc al (size_add cfg size (poison_size cfg size)) s = (s1, NULL) ->
     umm_poison_calloc cfg al num item_size s = Ret NULL s1) /\
  (forall ptr size s s0 raw s1,
     get_unpoisoned cfg ptr s = Ret raw s0 ->
     umm_realloc al raw (size_add cfg size (poison_size cfg size)) s0 = (s1, NULL) ->
     umm_poison_realloc cfg al ptr size s = Ret NULL s1).
Proof.
  repeat split.
  - intros size s s1 H. unfold umm_poison_malloc, bind, call_malloc.
    rewrite H. unfold get_poisoned. rewrite andb_false_r. reflexivity.
  - intros num item_size s s1 size H. unfold umm_poison_calloc, bind, call_malloc.
    fold size. rewrite H. cbn [NULL Z.eqb negb]. unfold ret at 1.
    unfold get_poisoned. rewrite andb_false_r. reflexivity.
  - intros ptr size s s0 raw s1 Hu H. unfold umm_poison_realloc, bind at 1.
    rewrite Hu. unfold bind, call_realloc. rewrite H.
    unfold get_poisoned. rewrite andb_false_r. reflexivity.
Qed.

Lemma umm_poison_null_propagates_witness :
  umm_poison_malloc cfg_std null_alloc 10 heap0 = Ret NULL heap0 /\
  umm_poison_calloc cfg_std null_alloc 3 4 heap0 = Ret NULL heap0 /\
  umm_poison_realloc cfg_std null_alloc NULL 10 heap0 = Ret NULL heap0.
Proof.
  destruct (umm_poison_null_propagates cfg_std null_alloc) as [Hm [Hc Hr]].
  split; [| split].
  - apply Hm. reflexivity.
  - apply Hc. reflexivity.
  - apply (Hr NULL 10 heap0 heap0 NULL heap0); reflexivity.
Defined.

(** ** [umm_poison_calloc] *)

Lemma umm_poison_calloc_run (cfg : umm_config) (al : allocator) num item_size s s1 p :
  let size := size_mul cfg item_size num in
  let t := size_add cfg size (poison_size cfg size) in
  umm_malloc al t s = (s1, p) -> p <> NULL ->
  umm_poison_calloc cfg al num item_size s
  = get_poisoned cfg p t (set_mem s1 (memset (mem s1) p t 0)).
Proof.
  intros size t Hm Hp. unfold umm_poison_calloc, bind, call_malloc.
  fold size. fold t. rewrite Hm.
  rewrite (proj2 (Z.eqb_neq NULL p)) by congruence. reflexivity.
Qed.

(** C7 (as amended): when [item_size * num] is non-zero and the total
    [size + poison_size(size)] does not wrap [size_t], a non-NULL block from
    the allocator is zero-filled over the whole total first and poisoned
    after ([get_poisoned] runs on the zero-filled memory): both guards then
    hold [POISON_BYTE] and the user payload between them holds 0. *)
Theorem umm_poison_calloc_zero_then_poison (cfg : umm_config) (al : allocator)
    num item_size s s1 p :
  let size := size_mul cfg item_size num in
  let t := size + poison_size cfg size in
  cfg_ok cfg = true -> 0 < size -> t < size_max_plus_one cfg ->
  umm_malloc al (size_add cfg size (poison_size cfg size)) s = (s1, p) -> p <> NULL ->
  exists m2,
    umm_poison_calloc cfg al num item_size s
      = get_poisoned cfg p t (set_mem s1 (memset (mem s1) p t 0)) /\
    umm_poison_calloc cfg al num item_size s
      = Ret (p + LEN_TYPE_SIZE cfg + UMM_POISON_SIZE_BEFORE cfg) (set_mem s1 m2) /\
    (forall a, p + LEN_TYPE_SIZE cfg <= a < p + LEN_TYPE_SIZE cfg + UMM_POISON_SIZE_BEFORE cfg ->
               m2 a = POISON_BYTE) /\
    (forall a, p + t - UMM_POISON_SIZE_AFTER cfg <= a < p + t -> m2 a = POISON_BYTE) /\
    (forall a, p + LEN_TYPE_SIZE cfg + UMM_POISON_SIZE_BEFORE cfg <= a
               < p + t - UMM_POISON_SIZE_AFTER cfg -> m2 a = 0).
Proof.
  intros size t Hcfg Hs Hw Hm Hp.
  pose proof (cfg_ok_bounds cfg Hcfg) as Hb.
  assert (Eps : poison_size cfg size
                = UMM_POISON_SIZE_BEFORE cfg + LEN_TYPE_SIZE cfg + UMM_POISON_SIZE_AFTER cfg)
    by (apply poison_size_nonzero; lia).
  assert (Et : size_add cfg size (poison_size cfg size) = t)
    by (apply size_add_no_wrap; unfold t; lia).
  assert (Ht : UMM_POISON_SIZE_BEFORE cfg + LEN_TYPE_SIZE cfg + UMM_POISON_SIZE_AFTER cfg <= t)
    by (unfold t; lia).
  rewrite Et in Hm.
  assert (E : umm_poison_calloc cfg al num item_size s
              = get_poisoned cfg p t (set_mem s1 (memset (mem s1) p t 0))).
  { pose proof (umm_poison_calloc_run cfg al num item_size s s1 p) as R.
    cbv zeta in R. fold size in R. rewrite Et in R. apply R; assumption. }
  eexists. split; [exact E|]. split.
  - rewrite E. rewrite get_poisoned_run by lia. reflexivity.
  - split; [|split]; intros a Ha.
    + apply poisoned_before; [exact Hcfg | exact Ht | exact Ha].
    + apply poisoned_after; [exact Hcfg | exact Ht | exact Ha].
    + rewrite poisoned_payload; [| exact Hcfg | exact Ht | exact Ha].
      unfold set_mem, memset. cbn [mem]. zcases.
Qed.

Lemma umm_poison_calloc_zero_then_poison_witness :
  exists m2,
    umm_poison_calloc cfg_std demo_alloc 2 5 heap0
      = get_poisoned cfg_std (0x20000000 + 12) 20
          (set_mem (fst (umm_malloc demo_alloc 20 heap0))
             (memset (mem (fst (umm_malloc demo_alloc 20 heap0))) (0x20000000 + 12) 20 0)) /\
    umm_poison_calloc cfg_std demo_alloc 2 5 heap0
      = Ret (0x20000000 + 12 + 2 + 4) (set_mem (fst (umm_malloc demo_alloc 20 heap0)) m2) /\
    (forall a, 0x20000000 + 12 + 2 <= a < 0x20000000 + 12 + 2 + 4 -> m2 a = POISON_BYTE) /\
    (forall a, 0x20000000 + 12 + 20 - 4 <= a < 0x20000000 + 12 + 20 -> m2 a = POISON_BYTE) /\
    (forall a, 0x20000000 + 12 + 2 + 4 <= a < 0x20000000 + 12 + 20 - 4 -> m2 a = 0).
Proof.
  apply (umm_poison_calloc_zero_then_poison cfg_std demo_alloc 2 5 heap0
           (fst (umm_malloc demo_alloc 20 heap0)) (0x20000000 + 12));
    vm_compute; (reflexivity || congruence).
Defined.

(** C7 fails as stated when the total wraps [size_t]: for [num = 1] and
    [item_size = 2^32 - 5] the total is 5, the block is zero-filled and
    poisoned, but the length record written last overlaps the after guard,
    whose first byte holds 0, and the block fails its check. *)
Lemma umm_poison_calloc_zero_then_poison_cex :
  let o := umm_poison_calloc cfg_std demo_alloc 1 (2 ^ 32 - 5) heap0 in
  result_of o = Some (0x20000000 + 12 + 2 + 4) /\
  read_len cfg_std (mem (state_of o)) (0x20000000 + 12) = 5 /\
  mem (state_of o) (0x20000000 + 12 + 5 - 4) = 0 /\
  result_of (check_poison_block cfg_std 1 (state_of o)) = None.
Proof. vm_compute. repeat split. Qed.

(** C8: [umm_poison_calloc] takes [item_size * num] modulo [2^SIZE_T_BITS]
    with no overflow check: the call behaves exactly as a call for one item
    of the wrapped size, and when the allocator grants the (small) wrapped
    total the block is zero-filled and poisoned as for any request, with no
    failure reported. *)
Theorem umm_poison_calloc_size_wraps (cfg : umm_config) (al : allocator) num item_size s :
  size_mul cfg item_size num = (item_size * num) mod size_max_plus_one cfg /\
  umm_poison_calloc cfg al num item_size s
    = umm_poison_calloc cfg al 1 ((item_size * num) mod size_max_plus_one cfg) s /\
  (forall s1 p,
     let size := (item_size * num) mod size_max_plus_one cfg in
     let t := size_add cfg size (poison_size cfg size) in
     umm_malloc al t s = (s1, p) -> p <> NULL ->
     umm_poison_calloc cfg al num item_size s
       = get_poisoned cfg p t (set_mem s1 (memset (mem s1) p t 0))).
Proof.
  split; [reflexivity|]. split.
  - assert (E : size_mul cfg ((item_size * num) mod size_max_plus_one cfg) 1
                = size_mul cfg item_size num)
      by (unfold size_mul; rewrite Z.mul_1_r, Zmod_mod; reflexivity).
    unfold umm_poison_calloc at 2. rewrite E. reflexivity.
  - intros s1 p size t Hm Hp.
    exact (umm_poison_calloc_run cfg al num item_size s s1 p Hm Hp).
Qed.

Lemma umm_poison_calloc_size_wraps_witness :
  umm_poison_calloc cfg_std demo_alloc 2 (2 ^ 31 + 1) heap0
    = umm_poison_calloc cfg_std demo_alloc 1 2 heap0 /\
  umm_poison_calloc cfg_std demo_alloc 2 (2 ^ 31 + 1) heap0
    = get_poisoned cfg_std (0x20000000 + 12) 12
        (set_mem (fst (umm_malloc demo_alloc 12 heap0))
           (memset (mem (fst (umm_malloc demo_alloc 12 heap0))) (0x20000000 + 12) 12 0)).
Proof.
  destruct (umm_poison_calloc_size_wraps cfg_std demo_alloc 2 (2 ^ 31 + 1) heap0)
    as [_ [H1 H2]].
  split.
  - exact H1.
  - apply H2; vm_compute; (reflexivity || congruence).
Defined.

(** ** The wrapped total of [umm_poison_malloc] *)

(** C10: [umm_poison_malloc] computes [size + poison_size(size)] in
    [size_t] with no overflow check: for every [size] above
    [SIZE_MAX - overhead] the total is [size + overhead - 2^SIZE_T_BITS],
    smaller than [size], and the call is the allocator's call for that
    total followed by [get_poisoned] with that total. *)
Theorem umm_poison_malloc_total_wraps (cfg : umm_config) (al : allocator) size s :
  let ovh := UMM_POISON_SIZE_BEFORE cfg + LEN_TYPE_SIZE cfg + UMM_POISON_SIZE_AFTER cfg in
  cfg_ok cfg = true -> ovh < size_max_plus_one cfg ->
  size_max_plus_one cfg - 1 - ovh < size < size_max_plus_one cfg ->
  size_add cfg size (poison_size cfg size) = size + ovh - size_max_plus_one cfg /\
  size + ovh - size_max_plus_one cfg < size /\
  umm_poison_malloc cfg al size s
    = (let t := size + ovh - size_max_plus_one cfg in
       r <- call_malloc al t ;; get_poisoned cfg r t) s.
Proof.
  intros ovh Hcfg Hovh Hr.
  pose proof (cfg_ok_bounds cfg Hcfg) as Hb.
  assert (Eps : poison_size cfg size = ovh) by (apply poison_size_nonzero; lia).
  assert (E : size_add cfg size (poison_size cfg size) = size + ovh - size_max_plus_one cfg).
  { unfold size_add. rewrite Eps.
    symmetry. apply Z.mod_unique with 1; lia. }
  split; [exact E|]. split; [lia|].
  unfold umm_poison_malloc. rewrite E. reflexivity.
Qed.

Lemma umm_poison_malloc_total_wraps_witness :
  size_add cfg_std (2 ^ 32 - 5) (poison_size cfg_std (2 ^ 32 - 5)) = 5 /\
  5 < 2 ^ 32 - 5 /\
  umm_poison_malloc cfg_std demo_alloc (2 ^ 32 - 5) heap0
    = (r <- call_malloc demo_alloc 5 ;; get_poisoned cfg_std r 5) heap0.
Proof.
  pose proof (umm_poison_malloc_total_wraps cfg_std demo_alloc (2 ^ 32 - 5) heap0) as H.
  cbv zeta in H.
  destruct H as [H1 [H2 H3]]; [vm_compute; reflexivity | vm_compute; reflexivity
                              | split; vm_compute; reflexivity |].
  split; [|split].
  - exact H1.
  - exact H2.
  - exact H3.
Defined.

(** ** Recovering the raw pointer *)

Section Unpoison.

Variable cfg : umm_config.
Local Abbreviation BEFORE := (UMM_POISON_SIZE_BEFORE cfg).
Local Abbreviation AFTER := (UMM_POISON_SIZE_AFTER cfg).
Local Abbreviation LEN := (LEN_TYPE_SIZE cfg).

(** [get_unpoisoned] of the user pointer of block [c] finds block [c] back
    and returns the body of that block. *)
Lemma get_unpoisoned_block s c :
  0 <= c < 2 ^ 16 -> c * umm_block_size + umm_header_size < size_max_plus_one cfg ->
  data_addr s c + LEN + BEFORE <> NULL ->
  get_unpoisoned cfg (data_addr s c + LEN + BEFORE) s
  = (check_poison_block cfg c ;; ret (data_addr s c)) s.
Proof.
  intros Hc HM Hn. unfold get_unpoisoned.
  rewrite (proj2 (Z.eqb_neq _ _) Hn). cbn [negb]. cbv zeta.
  replace (data_addr s c + LEN + BEFORE - (LEN + BEFORE)) with (data_addr s c) by lia.
  unfold bind at 1, get at 1.
  replace (((data_addr s c - umm_heap s) mod size_max_plus_one cfg / umm_block_size) mod 2 ^ 16)
    with c; [reflexivity|].
  unfold data_addr, block_addr in *.
  replace (umm_heap s + c * umm_block_size + umm_header_size - umm_heap s)
    with (c * umm_block_size + umm_header_size) by lia.
  unfold umm_block_size, umm_header_size in *.
  rewrite (Z.mod_small (c * 8 + 4)) by lia.
  rewrite Z.div_add_l by lia. change (4 / 8) with 0. rewrite Z.add_0_r.
  symmetry. apply Z.mod_small. lia.
Qed.

(** The allocation that [get_poisoned] writes into the body of a used
    block with room for [t] bytes is intact. *)
Lemma poisoned_block_intact s1 c t :
  cfg_ok cfg = true -> BEFORE + LEN + AFTER <= t -> t < len_limit cfg ->
  data_addr s1 c + t <= block_addr s1 (next_blk s1 c) ->
  alloc_intact cfg
    (set_mem s1 (store_len cfg (memset (memset (mem s1) (data_addr s1 c + LEN) BEFORE POISON_BYTE)
                                  (data_addr s1 c + t - AFTER) AFTER POISON_BYTE)
                   (data_addr s1 c) t)) c = true.
Proof.
  intros Hcfg Ht Hl Hroom. pose proof (cfg_ok_bounds cfg Hcfg) as Hb.
  set (p := data_addr s1 c) in *.
  set (pm := store_len cfg (memset (memset (mem s1) (p + LEN) BEFORE POISON_BYTE)
                              (p + t - AFTER) AFTER POISON_BYTE) p t).
  unfold alloc_intact.
  change (data_addr (set_mem s1 pm) c) with p.
  change (block_addr (set_mem s1 pm) (next_blk (set_mem s1 pm) c))
    with (block_addr s1 (next_blk s1 c)).
  change (mem (set_mem s1 pm)) with pm.
  assert (Hlen : read_len cfg pm p = t) by (apply poisoned_len; assumption).
  rewrite Hlen, !andb_true_iff, !Z.leb_le. split; [split; [split|]|]; try lia.
  - apply scan_poison_true. intros k Hk. rewrite Z2Nat.id in Hk by lia.
    apply poisoned_before; auto. lia.
  - apply scan_poison_true. intros k Hk. rewrite Z2Nat.id in Hk by lia.
    apply poisoned_after; auto. lia.
Qed.

Lemma umm_poison_malloc_run (al : allocator) size s s1 p :
  cfg_ok cfg = true -> 0 < size -> size + poison_size cfg size < size_max_plus_one cfg ->
  umm_malloc al (size_add cfg size (poison_size cfg size)) s = (s1, p) -> p <> NULL ->
  umm_poison_malloc cfg al size s
  = Ret (p + LEN + BEFORE)
      (set_mem s1 (store_len cfg (memset (memset (mem s1) (p + LEN) BEFORE POISON_BYTE)
                                    (p + (size + BEFORE + LEN + AFTER) - AFTER) AFTER POISON_BYTE)
                     p (size + BEFORE + LEN + AFTER))).
Proof.
  intros Hcfg Hs Hw Hm Hp. pose proof (cfg_ok_bounds cfg Hcfg) as Hb.
  rewrite poison_size_nonzero in Hw, Hm by lia.
  rewrite size_add_no_wrap in Hm by lia.
  unfold umm_poison_malloc. rewrite poison_size_nonzero by lia.
  rewrite size_add_no_wrap by lia.
  unfold bind at 1, call_malloc.
  replace (size + (BEFORE + LEN + AFTER)) with (size + BEFORE + LEN + AFTER) in Hm |- * by lia.
  rewrite Hm. apply get_poisoned_run; lia.
Qed.

(** [check_poison_block] only logs: memory, chain and heap base stay. *)
Lemma check_poison_block_frame c s :
  mem (state_of (check_poison_block cfg c s)) = mem s /\
  nblock (state_of (check_poison_block cfg c s)) = nblock s /\
  umm_heap (state_of (check_poison_block cfg c s)) = umm_heap s.
Proof.
  unfold check_poison_block, check_poison, bind, get, ret, dbglog_error, APP_ERROR_CHECK_BOOL.
  cbv beta.
  repeat match goal with
  | |- context [if ?b then _ else _] => destruct b
  end; simpl; auto.
Qed.

Lemma check_loop_frame (fuel : nat) : forall cur ok s,
  mem (state_of (check_loop cfg fuel cur ok s)) = mem s /\
  nblock (state_of (check_loop cfg fuel cur ok s)) = nblock s /\
  umm_heap (state_of (check_loop cfg fuel cur ok s)) = umm_heap s.
Proof.
  induction fuel as [|fuel IH]; intros cur ok s; [simpl; auto|].
  simpl check_loop. unfold bind, get, ret.
  destruct (Z.land (nblock s cur) UMM_BLOCKNO_MASK =? 0); [simpl; auto|].
  destruct (Z.land (nblock s cur) UMM_FREELIST_MASK =? 0); [|apply IH].
  pose proof (check_poison_block_frame cur s) as Hf.
  destruct (check_poison_block cfg cur s) as [v s'|s'] eqn:E; [|exact Hf].
  simpl in Hf. destruct Hf as (Hm & Hn & Hh).
  destruct (v =? 0); [simpl; auto|].
  destruct (IH (Z.land (nblock s' cur) UMM_BLOCKNO_MASK) v s') as (Hm' & Hn' & Hh').
  rewrite Hm', Hn', Hh'. auto.
Qed.

End Unpoison.

(** ** Further properties of the poison layer *)

(** [check_poison] returns 1 and changes nothing when the [n] bytes from
    [ptr] all hold [POISON_BYTE]; when one of them differs it logs the side,
    the address and the [n] bytes, and stops at the fatal assertion. *)
Theorem check_poison_spec ptr n side s :
  ((forall k, 0 <= k < n -> mem s (ptr + k) = POISON_BYTE) ->
   check_poison ptr n side s = Ret 1 s) /\
  ((exists k, 0 <= k < n /\ mem s (ptr + k) <> POISON_BYTE) ->
   check_poison ptr n side s = Fatal (add_log s (NoPoison side ptr (dump_mem (mem s) ptr n)))).
Proof.
  split.
  - intro H. apply check_poison_pass. apply scan_poison_true. intros k Hk.
    apply H. destruct (Z.leb_spec 0 n) as [Hn|Hn].
    + rewrite Z2Nat.id in Hk by lia. lia.
    + destruct n; simpl in Hk; lia.
  - intros (k & Hk & Hb). apply check_poison_fail.
    destruct (scan_poison (mem s) ptr 0 (Z.to_nat n)) eqn:E; [|reflexivity].
    exfalso. apply Hb. apply (proj1 (scan_poison_true _ _ _ _) E).
    rewrite Z2Nat.id by lia. lia.
Qed.

Lemma check_poison_spec_witness :
  check_poison (0x20000000 + 12 + 2) 4 "before" heap1 = Ret 1 heap1 /\
  check_poison (0x20000000 + 12 + 2) 4 "before" heap0
  = Fatal (add_log heap0 (NoPoison "before" (0x20000000 + 12 + 2)
                            (dump_mem (mem heap0) (0x20000000 + 12 + 2) 4))).
Proof.
  split.
  - apply (proj1 (check_poison_spec (0x20000000 + 12 + 2) 4 "before" heap1)).
    intros k Hk. unfold heap1.
    assert (Hk' : k = 0 \/ k = 1 \/ k = 2 \/ k = 3) by lia.
    destruct Hk' as [-> | [-> | [-> | ->]]]; vm_compute; reflexivity.
  - apply (proj2 (check_poison_spec (0x20000000 + 12 + 2) 4 "before" heap0)).
    exists 0. split; [lia|]. vm_compute. congruence.
Defined.

(** [umm_poison_malloc(size)], for [size > 0] whose total neither wraps
    [size_t] nor leaves the range of the length record, turns the block [c]
    the allocator granted (with room for the total) into an intact poisoned
    allocation, returns [body + sizeof(length record) + UMM_POISON_SIZE_BEFORE],
    changes neither the chain nor the log, and writes no byte other than
    the length record and the two guards: the user payload keeps whatever
    the allocator left there. *)
Theorem umm_poison_malloc_block_intact (cfg : umm_config) (al : allocator) size s s1 c :
  cfg_ok cfg = true -> 0 < size ->
  size + poison_size cfg size < size_max_plus_one cfg ->
  size + poison_size cfg size < len_limit cfg ->
  0 < umm_heap s1 -> 0 <= c ->
  umm_malloc al (size_add cfg size (poison_size cfg size)) s = (s1, data_addr s1 c) ->
  data_addr s1 c + (size + poison_size cfg size) <= block_addr s1 (next_blk s1 c) ->
  exists s2,
    umm_poison_malloc cfg al size s
      = Ret (data_addr s1 c + LEN_TYPE_SIZE cfg + UMM_POISON_SIZE_BEFORE cfg) s2 /\
    umm_heap s2 = umm_heap s1 /\ nblock s2 = nblock s1 /\ dbglog s2 = dbglog s1 /\
    alloc_intact cfg s2 c = true /\
    (forall a,
       a < data_addr s1 c \/
       data_addr s1 c + LEN_TYPE_SIZE cfg + UMM_POISON_SIZE_BEFORE cfg <= a
         < data_addr s1 c + (size + poison_size cfg size) - UMM_POISON_SIZE_AFTER cfg \/
       data_addr s1 c + (size + poison_size cfg size) <= a ->
       mem s2 a = mem s1 a).
Proof.
  intros Hcfg Hs Hw Hl Hh Hc Hm Hroom. pose proof (cfg_ok_bounds cfg Hcfg) as Hb.
  assert (Hp : data_addr s1 c <> NULL)
    by (unfold NULL, data_addr, block_addr, umm_block_size, umm_header_size; lia).
  rewrite (umm_poison_malloc_run cfg al size s s1 (data_addr s1 c) Hcfg Hs Hw Hm Hp).
  rewrite poison_size_nonzero in Hl, Hroom |- * by lia.
  eexists. split; [reflexivity|]. split; [reflexivity|]. split; [reflexivity|].
  split; [reflexivity|]. split.
  - replace (size + (UMM_POISON_SIZE_BEFORE cfg + LEN_TYPE_SIZE cfg + UMM_POISON_SIZE_AFTER cfg))
      with (size + UMM_POISON_SIZE_BEFORE cfg + LEN_TYPE_SIZE cfg + UMM_POISON_SIZE_AFTER cfg)
      in Hl, Hroom by lia.
    apply poisoned_block_intact; auto; lia.
  - intros a Ha. cbn [mem set_mem].
    destruct Ha as [Ha|[Ha|Ha]].
    + apply poisoned_outside; auto; lia.
    + apply poisoned_payload; auto; lia.
    + apply poisoned_outside; auto; lia.
Qed.

Lemma umm_poison_malloc_block_intact_witness :
  exists s2,
    umm_poison_malloc cfg_std demo_alloc 10 heap0 = Ret (0x20000000 + 12 + 2 + 4) s2 /\
    umm_heap s2 = umm_heap (fst (umm_malloc demo_alloc 20 heap0)) /\
    nblock s2 = nblock (fst (umm_malloc demo_alloc 20 heap0)) /\
    dbglog s2 = dbglog (fst (umm_malloc demo_alloc 20 heap0)) /\
    alloc_intact cfg_std s2 1 = true /\
    (forall a, a < 0x20000000 + 12 \/ 0x20000000 + 12 + 2 + 4 <= a < 0x20000000 + 12 + 20 - 4 \/
               0x20000000 + 12 + 20 <= a ->
               mem s2 a = mem (fst (umm_malloc demo_alloc 20 heap0)) a).
Proof.
  apply (umm_poison_malloc_block_intact cfg_std demo_alloc 10 heap0
           (fst (umm_malloc demo_alloc 20 heap0)) 1);
    vm_compute; (reflexivity || congruence).
Defined.

(** Freeing or reallocating the user pointer of a used block holding an
    intact poisoned allocation passes verification without logging
    anything: [umm_poison_free] calls [umm_free] on the body of the block,
    and [umm_poison_realloc] calls [umm_realloc] on it with the new total
    and poisons the result. *)
Theorem umm_poison_free_realloc_intact (cfg : umm_config) (al : allocator) s c :
  cfg_ok cfg = true -> is_free s c = false -> alloc_intact cfg s c = true ->
  0 < umm_heap s -> 0 <= c < 2 ^ 16 ->
  c * umm_block_size + umm_header_size < size_max_plus_one cfg ->
  let u := data_addr s c + LEN_TYPE_SIZE cfg + UMM_POISON_SIZE_BEFORE cfg in
  umm_poison_free cfg al u s = Ret tt (umm_free al (data_addr s c) s) /\
  (forall size,
     umm_poison_realloc cfg al u size s
     = (r <- call_realloc al (data_addr s c) (size_add cfg size (poison_size cfg size)) ;;
        get_poisoned cfg r (size_add cfg size (poison_size cfg size))) s).
Proof.
  intros Hcfg Hu Hi Hh Hc HM u. pose proof (cfg_ok_bounds cfg Hcfg) as Hb.
  assert (EU : get_unpoisoned cfg u s = Ret (data_addr s c) s).
  { unfold u. rewrite get_unpoisoned_block by
      (try unfold NULL, data_addr, block_addr, umm_block_size, umm_header_size in *; lia).
    rewrite (bind_Ret _ _ _ _ _ (check_poison_block_intact cfg c _ Hu Hi)). reflexivity. }
  split.
  - unfold umm_poison_free. rewrite (bind_Ret _ _ _ _ _ EU). reflexivity.
  - intro size. unfold umm_poison_realloc. rewrite (bind_Ret _ _ _ _ _ EU). reflexivity.
Qed.

Lemma umm_poison_free_realloc_intact_witness :
  umm_poison_free cfg_std demo_alloc (data_addr heap1 1 + 2 + 4) heap1
    = Ret tt (umm_free demo_alloc (data_addr heap1 1) heap1) /\
  (forall size,
     umm_poison_realloc cfg_std demo_alloc (data_addr heap1 1 + 2 + 4) size heap1
     = (r <- call_realloc demo_alloc (data_addr heap1 1)
               (size_add cfg_std size (poison_size cfg_std size)) ;;
        get_poisoned cfg_std r (size_add cfg_std size (poison_size cfg_std size))) heap1).
Proof.
  apply (umm_poison_free_realloc_intact cfg_std demo_alloc heap1 1);
    vm_compute; (reflexivity || congruence || split; congruence).
Defined.

(** Freeing or reallocating the user pointer of a block one of whose guard
    bytes was overwritten stops at the fatal assertion inside verification,
    with the guard's side and address logged: neither [umm_free] nor
    [umm_realloc] is called. *)
Theorem umm_poison_free_realloc_corrupt (cfg : umm_config) (al : allocator) s c g x b :
  cfg_ok cfg = true -> is_free s c = false -> alloc_intact cfg s c = true ->
  0 < umm_heap s -> 0 <= c < 2 ^ 16 ->
  c * umm_block_size + umm_header_size < size_max_plus_one cfg ->
  guard_start cfg s c g <= x < guard_start cfg s c g + guard_len cfg g ->
  b <> POISON_BYTE ->
  let u := data_addr s c + LEN_TYPE_SIZE cfg + UMM_POISON_SIZE_BEFORE cfg in
  let s' := set_mem s (poke (mem s) x b) in
  let ev := NoPoison (side_name g) (guard_start cfg s c g)
              (dump_mem (mem s') (guard_start cfg s c g) (guard_len cfg g)) in
  umm_poison_free cfg al u s' = Fatal (add_log s' ev) /\
  (forall size, umm_poison_realloc cfg al u size s' = Fatal (add_log s' ev)).
Proof.
  intros Hcfg Hu Hi Hh Hc HM Hx Hbx u s' ev. pose proof (cfg_ok_bounds cfg Hcfg) as Hb.
  assert (EU : get_unpoisoned cfg u s' = Fatal (add_log s' ev)).
  { unfold u. change (data_addr s c) with (data_addr s' c).
    rewrite get_unpoisoned_block by
      (try unfold NULL, data_addr, block_addr, umm_block_size, umm_header_size in *;
       unfold s'; cbn [umm_heap set_mem]; lia).
    apply bind_Fatal.
    exact (check_poison_block_violation cfg s c g x b Hcfg Hu Hi Hx Hbx). }
  split.
  - unfold umm_poison_free. exact (bind_Fatal _ _ _ _ EU).
  - intro size. unfold umm_poison_realloc. exact (bind_Fatal _ _ _ _ EU).
Qed.

Lemma umm_poison_free_realloc_corrupt_witness :
  let s' := set_mem heap1 (poke (mem heap1) (0x20000000 + 12 + 2 + 4 + 10 + 1) 0) in
  let ev := NoPoison "after" (guard_start cfg_std heap1 1 GuardAfter)
              (dump_mem (mem s') (guard_start cfg_std heap1 1 GuardAfter) 4) in
  umm_poison_free cfg_std demo_alloc (data_addr heap1 1 + 2 + 4) s' = Fatal (add_log s' ev) /\
  (forall size, umm_poison_realloc cfg_std demo_alloc (data_addr heap1 1 + 2 + 4) size s'
                = Fatal (add_log s' ev)).
Proof.
  apply (umm_poison_free_realloc_corrupt cfg_std demo_alloc heap1 1 GuardAfter
           (0x20000000 + 12 + 2 + 4 + 10 + 1) 0);
    vm_compute; (reflexivity || congruence || split; congruence).
Defined.

(** Freeing or reallocating a pointer whose block is free (a double free)
    is not refused: [check_poison_block] only logs the usage error, and
    [umm_free] or [umm_realloc] is then called on the body of that block. *)
Theorem umm_poison_free_free_block (cfg : umm_config) (al : allocator) s c :
  cfg_ok cfg = true -> is_free s c = true ->
  0 < umm_heap s -> 0 <= c < 2 ^ 16 ->
  c * umm_block_size + umm_header_size < size_max_plus_one cfg ->
  let u := data_addr s c + LEN_TYPE_SIZE cfg + UMM_POISON_SIZE_BEFORE cfg in
  let s' := add_log s (FreeBlockCheck (block_addr s c)) in
  umm_poison_free cfg al u s = Ret tt (umm_free al (data_addr s c) s') /\
  (forall size,
     umm_poison_realloc cfg al u size s
     = (r <- call_realloc al (data_addr s c) (size_add cfg size (poison_size cfg size)) ;;
        get_poisoned cfg r (size_add cfg size (poison_size cfg size))) s').
Proof.
  intros Hcfg Hf Hh Hc HM u s'. pose proof (cfg_ok_bounds cfg Hcfg) as Hb.
  assert (EU : get_unpoisoned cfg u s = Ret (data_addr s c) s').
  { unfold u. rewrite get_unpoisoned_block by
      (try unfold NULL, data_addr, block_addr, umm_block_size, umm_header_size in *; lia).
    unfold is_free in Hf.
    unfold bind at 1, check_poison_block, bind at 1, get at 1. rewrite Hf. reflexivity. }
  split.
  - unfold umm_poison_free. rewrite (bind_Ret _ _ _ _ _ EU). reflexivity.
  - intro size. unfold umm_poison_realloc. rewrite (bind_Ret _ _ _ _ _ EU). reflexivity.
Qed.

Lemma umm_poison_free_free_block_witness :
  umm_poison_free cfg_std demo_alloc (data_addr heap0 1 + 2 + 4) heap0
    = Ret tt (umm_free demo_alloc (data_addr heap0 1)
                (add_log heap0 (FreeBlockCheck (block_addr heap0 1)))) /\
  (forall size,
     umm_poison_realloc cfg_std demo_alloc (data_addr heap0 1 + 2 + 4) size heap0
     = (r <- call_realloc demo_alloc (data_addr heap0 1)
               (size_add cfg_std size (poison_size cfg_std size)) ;;
        get_poisoned cfg_std r (size_add cfg_std size (poison_size cfg_std size)))
         (add_log heap0 (FreeBlockCheck (block_addr heap0 1)))).
Proof.
  apply (umm_poison_free_free_block cfg_std demo_alloc heap0 1);
    vm_compute; (reflexivity || congruence || split; congruence).
Defined.

(** Two edges of [umm_poison_realloc]: a NULL pointer is not verified and
    goes to [umm_realloc(NULL, total)], whose result is poisoned; a new size
    of 0 asks [umm_realloc] for 0 bytes after verification and returns its
    result without poisoning it. *)
Theorem umm_poison_realloc_edges (cfg : umm_config) (al : allocator) :
  (forall size s,
     umm_poison_realloc cfg al NULL size s
     = (r <- call_realloc al NULL (size_add cfg size (poison_size cfg size)) ;;
        get_poisoned cfg r (size_add cfg size (poison_size cfg size))) s) /\
  (forall ptr s,
     umm_poison_realloc cfg al ptr 0 s
     = (raw <- get_unpoisoned cfg ptr ;; call_realloc al raw 0) s).
Proof.
  split.
  - intros size s. reflexivity.
  - intros ptr s. unfold umm_poison_realloc, poison_size, size_add. cbn [Z.eqb negb].
    rewrite Zmod_0_l. unfold bind.
    destruct (get_unpoisoned cfg ptr s) as [raw s0|s0]; [|reflexivity].
    unfold call_realloc. destruct (umm_realloc al raw 0 s0) as [s1 r].
    unfold get_poisoned. reflexivity.
Qed.

(** [umm_poison_calloc] with [item_size * num] equal to 0 modulo
    [2^SIZE_T_BITS] (one factor 0, or a product that wraps to 0) asks the
    allocator for 0 bytes and returns its pointer with memory unchanged: no
    zero-fill, no poison, no length record. *)
Theorem umm_poison_calloc_zero (cfg : umm_config) (al : allocator) num item_size s s1 p :
  (item_size * num) mod size_max_plus_one cfg = 0 ->
  umm_malloc al 0 s = (s1, p) ->
  exists s2,
    umm_poison_calloc cfg al num item_size s = Ret p s2 /\
    umm_heap s2 = umm_heap s1 /\ nblock s2 = nblock s1 /\ dbglog s2 = dbglog s1 /\
    (forall a, mem s2 a = mem s1 a).
Proof.
  intros H0 Hm. unfold umm_poison_calloc, size_mul. rewrite H0.
  unfold poison_size, size_add. cbn [Z.eqb negb]. rewrite Zmod_0_l.
  unfold bind at 1, call_malloc. rewrite Hm.
  unfold get_poisoned. cbn [Z.eqb negb andb].
  destruct (negb (NULL =? p)).
  - eexists. split; [reflexivity|]. cbn. repeat split.
    intro a. unfold memset. zcases.
  - eexists. split; [reflexivity|]. repeat split.
Qed.

Lemma umm_poison_calloc_zero_witness :
  exists s2,
    umm_poison_calloc cfg_std zero_alloc (2 ^ 16) (2 ^ 16) heap0 = Ret (0x20000000 + 12) s2 /\
    umm_heap s2 = umm_heap heap0 /\ nblock s2 = nblock heap0 /\ dbglog s2 = dbglog heap0 /\
    (forall a, mem s2 a = mem heap0 a).
Proof.
  apply (umm_poison_calloc_zero cfg_std zero_alloc (2 ^ 16) (2 ^ 16) heap0 heap0
           (0x20000000 + 12)); vm_compute; reflexivity.
Defined.

(** [umm_poison_check] writes nothing: whether it returns or stops at a
    violation, memory, chain and heap base are those of the heap it started
    from (after [umm_init] when [umm_heap] was NULL). *)
Theorem umm_poison_check_no_writes (cfg : umm_config) (al : allocator) fuel s :
  let s1 := if umm_heap s =? NULL then umm_init al s else s in
  let s' := state_of (umm_poison_check cfg al fuel s) in
  mem s' = mem s1 /\ nblock s' = nblock s1 /\ umm_heap s' = umm_heap s1.
Proof.
  intros s1 s'.
  assert (E : umm_poison_check cfg al fuel s
              = check_loop cfg fuel (Z.land (nblock s1 0) UMM_BLOCKNO_MASK) 1 s1).
  { unfold s1, umm_poison_check, bind, get, ret, call_init.
    destruct (umm_heap s =? NULL); reflexivity. }
  unfold s'. rewrite E. apply check_loop_frame.
Qed.

(** On a heap of live poisoned allocations [umm_poison_check] returns 1
    and leaves the state unchanged, nothing logged. *)
Theorem umm_poison_check_live (cfg : umm_config) (al : allocator) s l fuel :
  live_heap cfg s l = true -> (List.length l < fuel)%nat ->
  umm_poison_check cfg al fuel s = Ret (Some 1) s.
Proof.
  intros Hl Hf. unfold live_heap in Hl. rewrite !andb_true_iff in Hl.
  destruct Hl as [[[Hh Hc] Ha] Hall]. apply Z.ltb_lt in Hh.
  pose proof (umm_poison_check_run cfg al s l fuel) as R. cbv zeta in R.
  rewrite (proj2 (Z.eqb_neq (umm_heap s) NULL)) in R by (unfold NULL; lia).
  rewrite R by assumption.
  rewrite (bind_Ret _ _ _ _ _ (verify_blocks_intact cfg s l Hall)). reflexivity.
Qed.

Lemma umm_poison_check_live_witness :
  umm_poison_check cfg_std demo_alloc 2 heap1 = Ret (Some 1) heap1.
Proof.
  apply (umm_poison_check_live cfg_std demo_alloc heap1 [1] 2);
    [vm_compute; reflexivity | simpl; lia].
Defined.

(** [umm_poison_malloc(size)] followed by [umm_poison_free] of the pointer
    it returned, for a block [c] granted with room for the total, passes
    verification and calls [umm_free] on the body of block [c]. *)
Theorem umm_poison_malloc_free (cfg : umm_config) (al : allocator) size s s1 c :
  cfg_ok cfg = true -> 0 < size ->
  size + poison_size cfg size < size_max_plus_one cfg ->
  size + poison_size cfg size < len_limit cfg ->
  0 < umm_heap s1 -> 0 <= c < 2 ^ 16 ->
  c * umm_block_size + umm_header_size < size_max_plus_one cfg ->
  umm_malloc al (size_add cfg size (poison_size cfg size)) s = (s1, data_addr s1 c) ->
  is_free s1 c = false ->
  data_addr s1 c + (size + poison_size cfg size) <= block_addr s1 (next_blk s1 c) ->
  exists s2,
    (u <- umm_poison_malloc cfg al size ;; umm_poison_free cfg al u) s
      = Ret tt (umm_free al (data_addr s1 c) s2) /\
    umm_heap s2 = umm_heap s1 /\ nblock s2 = nblock s1 /\ dbglog s2 = dbglog s1.
Proof.
  intros Hcfg Hs Hw Hl Hh Hc HM Hm Hu Hroom. pose proof (cfg_ok_bounds cfg Hcfg) as Hb.
  assert (Hp : data_addr s1 c <> NULL)
    by (unfold NULL, data_addr, block_addr, umm_block_size, umm_header_size; lia).
  rewrite (bind_Ret _ _ _ _ _ (umm_poison_malloc_run cfg al size s s1 _ Hcfg Hs Hw Hm Hp)).
  rewrite poison_size_nonzero in Hl, Hroom by lia.
  replace (size + (UMM_POISON_SIZE_BEFORE cfg + LEN_TYPE_SIZE cfg + UMM_POISON_SIZE_AFTER cfg))
    with (size + UMM_POISON_SIZE_BEFORE cfg + LEN_TYPE_SIZE cfg + UMM_POISON_SIZE_AFTER cfg)
    in Hl, Hroom by lia.
  set (t := size + UMM_POISON_SIZE_BEFORE cfg + LEN_TYPE_SIZE cfg + UMM_POISON_SIZE_AFTER cfg)
    in *.
  set (s2 := set_mem s1 _).
  assert (Hi : alloc_intact cfg s2 c = true) by (apply poisoned_block_intact; auto; lia).
  assert (EU : get_unpoisoned cfg (data_addr s2 c + LEN_TYPE_SIZE cfg + UMM_POISON_SIZE_BEFORE cfg) s2
               = Ret (data_addr s2 c) s2).
  { rewrite get_unpoisoned_block by
      (try unfold NULL, data_addr, block_addr, umm_block_size, umm_header_size in *;
       cbn [umm_heap set_mem s2]; lia).
    rewrite (bind_Ret _ _ _ _ _ (check_poison_block_intact cfg c s2 Hu Hi)). reflexivity. }
  exists s2. split; [|repeat split].
  unfold umm_poison_free. change (data_addr s1 c) with (data_addr s2 c).
  rewrite (bind_Ret _ _ _ _ _ EU). reflexivity.
Qed.

Lemma umm_poison_malloc_free_witness :
  exists s2,
    (u <- umm_poison_malloc cfg_std demo_alloc 10 ;; umm_poison_free cfg_std demo_alloc u) heap0
      = Ret tt (umm_free demo_alloc (0x20000000 + 12) s2) /\
    umm_heap s2 = umm_heap (fst (umm_malloc demo_alloc 20 heap0)) /\
    nblock s2 = nblock (fst (umm_malloc demo_alloc 20 heap0)) /\
    dbglog s2 = dbglog (fst (umm_malloc demo_alloc 20 heap0)).
Proof.
  apply (umm_poison_malloc_free cfg_std demo_alloc 10 heap0
           (fst (umm_malloc demo_alloc 20 heap0)) 1);
    vm_compute; (reflexivity || congruence || split; congruence).
Defined.
